(** * The ignore/include rule engine of [src/filter.cpp]

    A shallow embedding of [Filter], [GlobFilter], [RegexFilter],
    [FilterClass] and [FilterChain], followed by the properties of the
    rule grammar, of rule evaluation and of the transactional reload. *)

From Stdlib Require Import String Ascii List Bool Arith ZArith Lia Permutation.
Import ListNotations.

Local Open Scope string_scope.
Local Open Scope list_scope.

(** ** C strings and character pointers

    A [std::string] is a sequence of bytes that may contain NUL bytes.  Its
    buffer [data()] is followed by a NUL terminator, so a [const char*] into
    the buffer is modelled by an index [m] with [0 <= m <= size]. *)

Module CStr.

Definition NUL : ascii := Ascii.zero.

(** [*m]: the byte at index [m]; index [size] reads the terminator. *)
Definition deref (text : string) (m : nat) : ascii :=
  match String.get m text with
  | Some c => c
  | None => NUL
  end.

(** The bytes of [text] from index [m] to its end, the range [[m, n)) of
    [add] where [n = text.data() + text.size()]. *)
Fixpoint from (m : nat) (text : string) : string :=
  match m, text with
  | O, _ => text
  | S _, EmptyString => EmptyString
  | S m', String _ text' => from m' text'
  end.

(** The C string starting at the head of the buffer: everything before the
    first NUL byte.  This is the conversion of a [char] pointer to a
    [std::string], and what a callee taking a [char] pointer sees of
    [c_str()]. *)
Fixpoint c_str (s : string) : string :=
  match s with
  | EmptyString => EmptyString
  | String c s' => if Ascii.eqb c NUL then EmptyString else String c (c_str s')
  end.

(** No NUL byte inside the string. *)
Fixpoint nul_free (s : string) : bool :=
  match s with
  | EmptyString => true
  | String c s' => negb (Ascii.eqb c NUL) && nul_free s'
  end.

Fixpoint all (p : ascii -> bool) (s : string) : bool :=
  match s with
  | EmptyString => true
  | String c s' => p c && all p s'
  end.

End CStr.

(** ** Collaborators

    What [filter.cpp] calls and does not define: the wildcard matcher of
    [mega/utils.h], [std::regex] and the line reader [readLines]. *)

Class Collaborators : Type := {
  (** [wildcardMatch(candidate, pattern)], on two C strings. *)
  wildcardMatch : string -> string -> bool;
  (** A compiled [std::regex]. *)
  regex : Type;
  (** [std::regex(text, extended | optimize)]; [None] when the constructor
      throws [std::regex_error]. *)
  regex_compile : string -> option regex;
  (** [std::regex_match(s, re)]. *)
  regex_match : string -> regex -> bool;
  (** The stream handed to [load]. *)
  InputStreamAccess : Type;
  (** [readLines(isAccess, filters)]: the returned flag and the lines it
      stored in [filters]. *)
  readLines : InputStreamAccess -> bool * list string
}.

(** Debug diagnostics: every [LOG_debug << ...] statement is one line. *)
Definition Log : Type := list string.

(** The outcome of an operation that logs: the returned value, the object
    afterwards and the diagnostics. *)
Definition returned {A S : Type} (r : A * S * Log) : A := fst (fst r).

Definition state_after {A S : Type} (r : A * S * Log) : S := snd (fst r).

Definition logged {A S : Type} (r : A * S * Log) : Log := snd r.

Inductive FilterType : Type := FT_NAME | FT_PATH.

Inductive FilterStrategy : Type := FS_GLOB | FS_REGEX.

Definition FilterType_toString (type : FilterType) : string :=
  match type with
  | FT_NAME => "NAME"
  | FT_PATH => "PATH"
  end.

Definition FilterStrategy_toString (strategy : FilterStrategy) : string :=
  match strategy with
  | FS_GLOB => "GLOB"
  | FS_REGEX => "REGEX"
  end.

(** [std::pair<string, string>]: [first] is the name, [second] the path. *)
Definition string_pair : Type := (string * string)%type.

(** ** Filter, GlobFilter, RegexFilter *)

Module Filter.
Section WithCollaborators.
Context {C : Collaborators}.

(** The members of the base class. *)
Record members : Type := Members {
  mText : string;
  mInheritable : bool;
  mType : FilterType
}.

(** The two subclasses; a [RegexFilter] also holds [mRegex]. *)
Inductive t : Type :=
| GlobFilter (base : members)
| RegexFilter (base : members) (mRegex : regex).

Definition base (f : t) : members :=
  match f with
  | GlobFilter b => b
  | RegexFilter b _ => b
  end.

Definition inheritable (f : t) : bool := mInheritable (base f).
Definition text (f : t) : string := mText (base f).
Definition type (f : t) : FilterType := mType (base f).

Definition strategy (f : t) : FilterStrategy :=
  match f with
  | GlobFilter _ => FS_GLOB
  | RegexFilter _ _ => FS_REGEX
  end.

(** [GlobFilter::GlobFilter]. *)
Definition newGlobFilter (text : string) (inheritable : bool) (type : FilterType) : t :=
  GlobFilter (Members text inheritable type).

(** [RegexFilter::RegexFilter]: compiling [text] may throw. *)
Definition newRegexFilter (text : string) (inheritable : bool) (type : FilterType)
  : option t :=
  match regex_compile text with
  | Some re => Some (RegexFilter (Members text inheritable type) re)
  | None => None
  end.

(** [GlobFilter::match] and [RegexFilter::match]. *)
Definition match_ (f : t) (s : string) : bool :=
  match f with
  | GlobFilter b => wildcardMatch (CStr.c_str s) (CStr.c_str (mText b))
  | RegexFilter _ re => regex_match s re
  end.

(** [toString] of a [Filter]. *)
Definition toString (f : t) : string :=
  FilterType_toString (type f) ++ "/" ++ FilterStrategy_toString (strategy f)
    ++ ":" ++ text f.

End WithCollaborators.
End Filter.

(** ** FilterClass *)

Module FilterClass.
Section WithCollaborators.
Context {C : Collaborators}.

Record t : Type := Make {
  mNames : list Filter.t;
  mPaths : list Filter.t
}.

(** [FilterClass::FilterClass]. *)
Definition new : t := Make [] [].

Definition add (filter : Filter.t) (c : t) : t :=
  match Filter.type filter with
  | FT_NAME => Make (mNames c ++ [filter]) (mPaths c)
  | FT_PATH => Make (mNames c) (mPaths c ++ [filter])
  end.

Definition clear (c : t) : t := Make [] [].

Definition is_nil (l : list Filter.t) : bool :=
  match l with
  | [] => true
  | _ :: _ => false
  end.

Definition empty (c : t) : bool := is_nil (mNames c) && is_nil (mPaths c).

(** One of the two [for] loops of [match]: [s] is [p.second] for the path
    rules and [p.first] for the name rules. *)
Fixpoint match_loop (filters : list Filter.t) (s : string) (onlyInheritable : bool)
  : bool * Log :=
  match filters with
  | [] => (false, [])
  | f :: rest =>
      if onlyInheritable && negb (Filter.inheritable f) then
        let '(r, l) := match_loop rest s onlyInheritable in
        (r, ("Skipped uninheritable filter " ++ Filter.toString f)%string :: l)
      else if Filter.match_ f s then
        (true, [(s ++ " matched by " ++ Filter.toString f)%string])
      else match_loop rest s onlyInheritable
  end.

Definition match_ (c : t) (p : string_pair) (onlyInheritable : bool) : bool * Log :=
  let '(r, l) := match_loop (mPaths c) (snd p) onlyInheritable in
  if r then (true, l)
  else
    let '(r', l') := match_loop (mNames c) (fst p) onlyInheritable in
    (r', l ++ l').

End WithCollaborators.
End FilterClass.

(** [std::isspace(int)] in the "C" locale, the locale of a program that
    never calls [setlocale]: non-zero for the space and for the bytes 9 to
    13 (tab, newline, vertical tab, form feed, carriage return). *)
Definition isspace (c : ascii) : Z :=
  let n := nat_of_ascii c in
  if Nat.eqb n 32 || (Nat.leb 9 n && Nat.leb n 13) then 1%Z else 0%Z.

(** ** The file-local helpers [isEmpty] and [syntaxError] *)

(** The [while (m < n)] loop of [isEmpty], with [k = n - m] iterations
    left: [w] advances by one for every whitespace byte. *)
Fixpoint isEmpty_loop (k : nat) (text : string) (m w : nat) : nat :=
  match k with
  | O => w
  | S k' =>
      isEmpty_loop k' text (S m)
        (w + (if (0 <? isspace (CStr.deref text m))%Z then 1 else 0))
  end.

(** [isEmpty(m, n)] on two pointers into the buffer of [text]. *)
Definition isEmpty (text : string) (m n : nat) : bool :=
  let w := isEmpty_loop (n - m) text m m in
  Nat.eqb n w.

(** [syntaxError(text)]: one diagnostic line, and [false]. *)
Definition syntaxError (text : string) : bool * Log :=
  (false, [("Syntax error parsing: " ++ text)%string]).

(** ** FilterChain *)

Module FilterChain.
Section WithCollaborators.
Context {C : Collaborators}.

Record t : Type := Make {
  mExclusions : FilterClass.t;
  mInclusions : FilterClass.t
}.

(** [FilterChain::FilterChain]. *)
Definition new : t := Make FilterClass.new FilterClass.new.

(** [FilterChain::add]: the returned flag, the chain afterwards and the
    diagnostics.  [m] and [n] are the two pointers of the source. *)
Definition add (text : string) (c : t) : bool * t * Log :=
  let fail := (fst (syntaxError text), c, snd (syntaxError text)) in
  let m := 0 in
  let n := m + String.length text in
  let inheritable := true in
  (* switch ( *m++ ) *)
  let sign := CStr.deref text m in
  let m := S m in
  match (if Ascii.eqb sign "-" then Some true
         else if Ascii.eqb sign "+" then Some false
         else None) with
  | None => fail
  | Some exclusion =>
      (* switch ( *m ): N falls through to n, n falls through to default *)
      let '(type, inheritable, m) :=
        let a := CStr.deref text m in
        if Ascii.eqb a "N" then (FT_NAME, false, S m)
        else if Ascii.eqb a "n" then (FT_NAME, inheritable, S m)
        else if Ascii.eqb a "p" then (FT_PATH, inheritable, S m)
        else (FT_NAME, inheritable, m) in
      (* switch ( *m ): g falls through to default *)
      let '(regex, m) :=
        let s := CStr.deref text m in
        if Ascii.eqb s "g" then (false, S m)
        else if Ascii.eqb s "r" then (true, S m)
        else (false, m) in
      (* if ( *m++ != ':' ) *)
      let colon := CStr.deref text m in
      let m := S m in
      if negb (Ascii.eqb colon ":") then fail
      else if isEmpty text m n then fail
      else
        (* the constructors take a string built from the pointer m *)
        let pattern := CStr.c_str (CStr.from m text) in
        match (if regex then Filter.newRegexFilter pattern inheritable type
               else Some (Filter.newGlobFilter pattern inheritable type)) with
        | None => fail
        | Some filter =>
            if exclusion then
              (true,
               Make (FilterClass.add filter (mExclusions c)) (mInclusions c),
               [("Adding exclusion " ++ Filter.toString filter)%string])
            else
              (true,
               Make (mExclusions c) (FilterClass.add filter (mInclusions c)),
               [("Adding inclusion " ++ Filter.toString filter)%string])
        end
  end.

Definition clear (c : t) : t :=
  Make (FilterClass.clear (mExclusions c)) (FilterClass.clear (mInclusions c)).

Definition empty (c : t) : bool :=
  FilterClass.empty (mExclusions c) && FilterClass.empty (mInclusions c).

Definition excluded (c : t) (p : string_pair) (onlyInheritable : bool) : bool * Log :=
  FilterClass.match_ (mExclusions c) p onlyInheritable.

Definition included (c : t) (p : string_pair) (onlyInheritable : bool) : bool * Log :=
  FilterClass.match_ (mInclusions c) p onlyInheritable.

(** The [for] loop of [load]: [exclusions] and [inclusions] are the saved
    filters, [c] is the chain being rebuilt. *)
Fixpoint load_loop (filters : list string) (exclusions inclusions : FilterClass.t)
    (c : t) : bool * t * Log :=
  match filters with
  | [] => (true, c, [])
  | f :: rest =>
      if Ascii.eqb (CStr.deref f 0) "#" then
        load_loop rest exclusions inclusions c
      else
        let '(ok, c', l) := add f c in
        if negb ok then (false, Make exclusions inclusions, l)
        else
          let '(r, c'', l') := load_loop rest exclusions inclusions c' in
          (r, c'', l ++ l')
  end.

(** [FilterChain::load(InputStreamAccess&)]. *)
Definition load (isAccess : InputStreamAccess) (c : t) : bool * t * Log :=
  let '(ok, filters) := readLines isAccess in
  if negb ok then (false, c, [])
  else
    (* save the current filters in two locals; the moves empty the members *)
    let exclusions := mExclusions c in
    let inclusions := mInclusions c in
    let c := Make FilterClass.new FilterClass.new in
    (* clear(): whatever the moves left behind, the members are empty now *)
    let c := clear c in
    load_loop filters exclusions inclusions c.

End WithCollaborators.
End FilterChain.

(** ** The rule grammar, in the words of the specification

    A rule line is [<sign><axis-token><strategy-token>:<pattern>]. *)

Module Grammar.
Section WithCollaborators.
Context {C : Collaborators}.

(** [-] marks an exclusion rule, [+] an inclusion rule. *)
Definition sign (c : ascii) : option bool :=
  if Ascii.eqb c "-" then Some true
  else if Ascii.eqb c "+" then Some false
  else None.

(** The axis, the inheritable flag and the number of characters consumed. *)
Definition axis_token (c : ascii) : FilterType * bool * nat :=
  if Ascii.eqb c "N" then (FT_NAME, false, 1)
  else if Ascii.eqb c "n" then (FT_NAME, true, 1)
  else if Ascii.eqb c "p" then (FT_PATH, true, 1)
  else (FT_NAME, true, 0).

(** The strategy and the number of characters consumed. *)
Definition strategy_token (c : ascii) : FilterStrategy * nat :=
  if Ascii.eqb c "g" then (FS_GLOB, 1)
  else if Ascii.eqb c "r" then (FS_REGEX, 1)
  else (FS_GLOB, 0).

Definition axis (text : string) : FilterType := fst (fst (axis_token (CStr.deref text 1))).

Definition inheritable (text : string) : bool := snd (fst (axis_token (CStr.deref text 1))).

(** Where the strategy token is looked for. *)
Definition strategy_pos (text : string) : nat := 1 + snd (axis_token (CStr.deref text 1)).

Definition strategy (text : string) : FilterStrategy :=
  fst (strategy_token (CStr.deref text (strategy_pos text))).

(** Where the colon has to be. *)
Definition colon_pos (text : string) : nat :=
  strategy_pos text + snd (strategy_token (CStr.deref text (strategy_pos text))).

(** Every remaining character through the end of the line. *)
Definition pattern (text : string) : string := CStr.from (S (colon_pos text)) text.

Definition whitespace (c : ascii) : bool := (0 <? isspace c)%Z.

(** Empty, or whitespace only. *)
Definition blank (s : string) : bool := CStr.all whitespace s.

(** The pattern text a filter is constructed from: the characters after
    the colon as a C string, which is all of them when none is NUL. *)
Definition filter_text (text : string) : string := CStr.c_str (pattern text).

(** The four ways in which a line is refused. *)
Definition invalid_sign (text : string) : Prop := sign (CStr.deref text 0) = None.

Definition missing_colon (text : string) : Prop :=
  CStr.deref text (colon_pos text) <> ":"%char.

Definition blank_pattern (text : string) : Prop := blank (pattern text) = true.

Definition regex_fails (text : string) : Prop :=
  strategy text = FS_REGEX /\ regex_compile (filter_text text) = None.

Definition rejected (text : string) : Prop :=
  invalid_sign text \/ missing_colon text \/ blank_pattern text \/ regex_fails text.

(** The filter of a line: constructed from the derived axis, strategy and
    inheritable flag. *)
Definition filter_of (text : string) : option Filter.t :=
  match strategy text with
  | FS_GLOB => Some (Filter.newGlobFilter (filter_text text) (inheritable text) (axis text))
  | FS_REGEX => Filter.newRegexFilter (filter_text text) (inheritable text) (axis text)
  end.

(** The rule of a line: whether it is an exclusion, and its filter. *)
Definition rule (text : string) : option (bool * Filter.t) :=
  match sign (CStr.deref text 0) with
  | None => None
  | Some exclusion =>
      if negb (Ascii.eqb (CStr.deref text (colon_pos text)) ":") then None
      else if blank (pattern text) then None
      else
        match filter_of text with
        | Some f => Some (exclusion, f)
        | None => None
        end
  end.

(** A line of a rule file is a comment when its first character is [#]. *)
Definition comment (line : string) : bool := Ascii.eqb (CStr.deref line 0) "#".

End WithCollaborators.
End Grammar.

(** ** Vocabulary of the properties *)

(** A filter moved into the exclusions or into the inclusions of a chain. *)
Definition route {C : Collaborators} (exclusion : bool) (f : Filter.t)
    (c : FilterChain.t) : FilterChain.t :=
  if exclusion
  then FilterChain.Make (FilterClass.add f (FilterChain.mExclusions c))
                        (FilterChain.mInclusions c)
  else FilterChain.Make (FilterChain.mExclusions c)
                        (FilterClass.add f (FilterChain.mInclusions c)).

(** The rules a class applies to a pair under the inheritance gate, with
    the string each one is tested against: path rules first. *)
Definition skipped {C : Collaborators} (onlyInheritable : bool) (f : Filter.t) : bool :=
  onlyInheritable && negb (Filter.inheritable f).

Definition candidates {C : Collaborators} (c : FilterClass.t) (p : string_pair)
  : list (Filter.t * string) :=
  map (fun f => (f, snd p)) (FilterClass.mPaths c)
  ++ map (fun f => (f, fst p)) (FilterClass.mNames c).

Definition applies {C : Collaborators} (onlyInheritable : bool) (fs : Filter.t * string)
  : bool :=
  negb (skipped onlyInheritable (fst fs)) && Filter.match_ (fst fs) (snd fs).

(** The number of whitespace bytes of a string. *)
Fixpoint spaces (s : string) : nat :=
  match s with
  | EmptyString => 0
  | String c s' => (if Grammar.whitespace c then 1 else 0) + spaces s'
  end.

(** The diagnostic of a successful [add]. *)
Definition adding {C : Collaborators} (exclusion : bool) (f : Filter.t) : string :=
  ((if exclusion then "Adding exclusion " else "Adding inclusion ")
     ++ Filter.toString f)%string.

(** [k'] is [k] with exactly one filter more, at the end of the name rules
    or at the end of the path rules. *)
Definition appended {C : Collaborators} (f : Filter.t) (k k' : FilterClass.t) : Prop :=
  (FilterClass.mNames k' = FilterClass.mNames k ++ [f]
   /\ FilterClass.mPaths k' = FilterClass.mPaths k)
  \/ (FilterClass.mNames k' = FilterClass.mNames k
      /\ FilterClass.mPaths k' = FilterClass.mPaths k ++ [f]).

(** The two diagnostics of [FilterClass::match]. *)
Definition skipping {C : Collaborators} (f : Filter.t) : string :=
  ("Skipped uninheritable filter " ++ Filter.toString f)%string.

Definition matching {C : Collaborators} (fs : Filter.t * string) : string :=
  (snd fs ++ " matched by " ++ Filter.toString (fst fs))%string.

(** The diagnostics of one pass over the candidates that stops at the first
    rule that applies. *)
Fixpoint trace {C : Collaborators} (onlyInheritable : bool)
    (cands : list (Filter.t * string)) : Log :=
  match cands with
  | [] => []
  | fs :: rest =>
      if skipped onlyInheritable (fst fs) then skipping (fst fs) :: trace onlyInheritable rest
      else if Filter.match_ (fst fs) (snd fs) then [matching fs]
      else trace onlyInheritable rest
  end.

(** The rules of the lines of a rule file that are not comments. *)
Definition rules_of {C : Collaborators} (lines : list string) : list (bool * Filter.t) :=
  flat_map (fun line => match Grammar.rule line with
                        | Some r => [r]
                        | None => []
                        end)
           (filter (fun line => negb (Grammar.comment line)) lines).

(** The filters of one direction and one axis among a list of rules, in
    the order of the list. *)
Definition select {C : Collaborators} (exclusion : bool) (type : FilterType)
    (rules : list (bool * Filter.t)) : list Filter.t :=
  map snd
    (filter (fun r => Bool.eqb (fst r) exclusion
                      && match Filter.type (snd r), type with
                         | FT_NAME, FT_NAME => true
                         | FT_PATH, FT_PATH => true
                         | _, _ => false
                         end)
            rules).

(** The chain that holds exactly the given rules. *)
Definition chain_of {C : Collaborators} (rules : list (bool * Filter.t)) : FilterChain.t :=
  FilterChain.Make
    (FilterClass.Make (select true FT_NAME rules) (select true FT_PATH rules))
    (FilterClass.Make (select false FT_NAME rules) (select false FT_PATH rules)).

(** The list of a chain that holds the filters of one direction and axis. *)
Definition rule_list {C : Collaborators} (exclusion : bool) (type : FilterType)
    (c : FilterChain.t) : list Filter.t :=
  let k := if exclusion then FilterChain.mExclusions c else FilterChain.mInclusions c in
  match type with
  | FT_NAME => FilterClass.mNames k
  | FT_PATH => FilterClass.mPaths k
  end.

(** Rules added to a chain one after the other. *)
Definition route_all {C : Collaborators} (rules : list (bool * Filter.t))
    (c : FilterChain.t) : FilterChain.t :=
  fold_left (fun c r => route (fst r) (snd r) c) rules c.

(** ** A model of the collaborators

    The rule engine is verified for every implementation of
    [Collaborators].  The instance below makes the statements about
    particular rules executable. *)

(** Modelled from the spec: [wildcardMatch] of [mega/utils.h] is not among
    the sources; the specification describes it as case-sensitive
    shell-wildcard matching where [*] matches any run of characters and [?]
    matches a single character. *)
Module Wildcard.

Fixpoint glob (pattern candidate : list ascii) : bool :=
  match pattern with
  | [] =>
      match candidate with
      | [] => true
      | _ :: _ => false
      end
  | p :: pattern' =>
      if Ascii.eqb p "*" then
        (fix run (candidate : list ascii) : bool :=
           glob pattern' candidate
           || match candidate with
              | [] => false
              | _ :: candidate' => run candidate'
              end) candidate
      else
        match candidate with
        | [] => false
        | c :: candidate' =>
            (Ascii.eqb p "?" || Ascii.eqb p c) && glob pattern' candidate'
        end
  end.

Definition wildcardMatch (candidate pattern : string) : bool :=
  glob (list_ascii_of_string pattern) (list_ascii_of_string candidate).

End Wildcard.

(** Modelled from the spec: [std::regex] is a library type; the specification
    asks for POSIX extended regular expressions, compiled once, and for a
    match of the whole candidate.  The model covers ordinary characters,
    [.], the anchors [^] and [$], escaped special characters, bracket
    expressions with ranges, negation and character classes, groups,
    alternation and the duplication symbols [*], [+], [?] and [{m,n}];
    collating symbols and equivalence classes are outside of it and are
    refused. *)
Module ERE.

Inductive re : Type :=
| Void
| Eps
| Chr (c : ascii)
| Any
| Bracket (negated : bool) (ranges : list (ascii * ascii))
| Bol
| Eol
| Cat (r1 r2 : re)
| Alt (r1 r2 : re)
| Star (r : re).

Definition in_range (c : ascii) (range : ascii * ascii) : bool :=
  Nat.leb (nat_of_ascii (fst range)) (nat_of_ascii c)
  && Nat.leb (nat_of_ascii c) (nat_of_ascii (snd range)).

Definition in_bracket (negated : bool) (ranges : list (ascii * ascii)) (c : ascii)
  : bool :=
  xorb negated (existsb (in_range c) ranges).

Definition is_nil (s : list ascii) : bool :=
  match s with
  | [] => true
  | _ :: _ => false
  end.

(** [lang r bs be s]: [r] matches the piece [s] of a candidate, where [bs]
    tells that the piece starts at the beginning of the candidate and [be]
    that it stops at its end. *)
Inductive lang : re -> bool -> bool -> list ascii -> Prop :=
| L_Eps bs be : lang Eps bs be []
| L_Chr c bs be : lang (Chr c) bs be [c]
| L_Any c bs be : c <> CStr.NUL -> lang Any bs be [c]
| L_Bracket negated ranges c bs be :
    in_bracket negated ranges c = true -> lang (Bracket negated ranges) bs be [c]
| L_Bol be : lang Bol true be []
| L_Eol bs : lang Eol bs true []
| L_Cat r1 r2 bs be s1 s2 :
    lang r1 bs (be && is_nil s2) s1 ->
    lang r2 (bs && is_nil s1) be s2 ->
    lang (Cat r1 r2) bs be (s1 ++ s2)
| L_AltL r1 r2 bs be s : lang r1 bs be s -> lang (Alt r1 r2) bs be s
| L_AltR r1 r2 bs be s : lang r2 bs be s -> lang (Alt r1 r2) bs be s
| L_Star0 r bs be : lang (Star r) bs be []
| L_StarS r bs be c s1 s2 :
    lang r bs (be && is_nil s2) (c :: s1) ->
    lang (Star r) false be s2 ->
    lang (Star r) bs be ((c :: s1) ++ s2).

(** The candidate as a whole is in the language. *)
Definition full (r : re) (s : string) : Prop :=
  lang r true true (list_ascii_of_string s).

(** Some piece of the candidate is in the language. *)
Definition somewhere (r : re) (s : string) : Prop :=
  exists pre mid post,
    list_ascii_of_string s = pre ++ mid ++ post
    /\ lang r (is_nil pre) (is_nil post) mid.

(** Matching by derivatives. *)
Fixpoint nullable (bs be : bool) (r : re) : bool :=
  match r with
  | Void => false
  | Eps => true
  | Chr _ => false
  | Any => false
  | Bracket _ _ => false
  | Bol => bs
  | Eol => be
  | Cat r1 r2 => nullable bs be r1 && nullable bs be r2
  | Alt r1 r2 => nullable bs be r1 || nullable bs be r2
  | Star _ => true
  end.

Fixpoint deriv (bs : bool) (c : ascii) (r : re) : re :=
  match r with
  | Void => Void
  | Eps => Void
  | Chr a => if Ascii.eqb a c then Eps else Void
  | Any => if Ascii.eqb c CStr.NUL then Void else Eps
  | Bracket negated ranges => if in_bracket negated ranges c then Eps else Void
  | Bol => Void
  | Eol => Void
  | Cat r1 r2 =>
      Alt (Cat (deriv bs c r1) r2)
          (if nullable bs false r1 then deriv bs c r2 else Void)
  | Alt r1 r2 => Alt (deriv bs c r1) (deriv bs c r2)
  | Star r1 => Cat (deriv bs c r1) (Star r1)
  end.

Fixpoint matches (bs : bool) (r : re) (s : list ascii) : bool :=
  match s with
  | [] => nullable bs true r
  | c :: s' => matches false (deriv bs c r) s'
  end.

(** [std::regex_match]. *)
Definition regex_match (s : string) (r : re) : bool :=
  matches true r (list_ascii_of_string s).

End ERE.

(** Modelled from the spec: the syntax of POSIX extended regular
    expressions, from which [std::regex] compiles a pattern.  What POSIX
    leaves undefined is refused: a duplication symbol with nothing to
    repeat, an escaped ordinary character, a NUL byte. *)
Module ERESyntax.
Import ERE.

Inductive token : Type :=
| TAtom (r : re) (quantifiable : bool)
| TLParen
| TRParen
| TBar
| TDup (lo : nat) (hi : option nat).

(** The scanner is a state machine over the bytes of the pattern. *)
Inductive mode : Type :=
| Normal
| Escape
| BracketStart (negated seen_caret : bool)
| InBracket (negated : bool) (ranges : list (ascii * ascii)) (last : option ascii)
| InRange (negated : bool) (ranges : list (ascii * ascii)) (lo : ascii)
| ClassOpen (negated : bool) (ranges : list (ascii * ascii))
| InClass (negated : bool) (ranges : list (ascii * ascii)) (name : string)
| ClassClose (negated : bool) (ranges : list (ascii * ascii)) (name : string)
| BraceLo (digits : option nat)
| BraceHi (lo : nat) (digits : option nat).

(** [RE_DUP_MAX]. *)
Definition dup_max : nat := 255.

Definition is_special (c : ascii) : bool :=
  existsb (Ascii.eqb c) (list_ascii_of_string "^.[$()|*+?{\").

Definition digit (c : ascii) : option nat :=
  let n := nat_of_ascii c in
  if Nat.leb 48 n && Nat.leb n 57 then Some (n - 48) else None.

Definition push_digit (digits : option nat) (d : nat) : option nat :=
  let n := match digits with
           | Some n => 10 * n + d
           | None => d
           end in
  if Nat.leb n dup_max then Some n else None.

(** The character classes in the "C" locale. *)
Definition class_ranges (name : string) : option (list (ascii * ascii)) :=
  let upper := ("A", "Z")%char in
  let lower := ("a", "z")%char in
  let digits := ("0", "9")%char in
  if String.eqb name "upper" then Some [upper]
  else if String.eqb name "lower" then Some [lower]
  else if String.eqb name "alpha" then Some [upper; lower]
  else if String.eqb name "digit" then Some [digits]
  else if String.eqb name "alnum" then Some [upper; lower; digits]
  else if String.eqb name "xdigit" then
    Some [digits; ("A", "F")%char; ("a", "f")%char]
  else if String.eqb name "space" then
    Some [(" ", " ")%char; (ascii_of_nat 9, ascii_of_nat 13)]
  else if String.eqb name "blank" then
    Some [(" ", " ")%char; (ascii_of_nat 9, ascii_of_nat 9)]
  else if String.eqb name "cntrl" then
    Some [(ascii_of_nat 0, ascii_of_nat 31); (ascii_of_nat 127, ascii_of_nat 127)]
  else if String.eqb name "print" then Some [(" ", "~")%char]
  else if String.eqb name "graph" then Some [("!", "~")%char]
  else if String.eqb name "punct" then
    Some [("!", "/")%char; (":", "@")%char; ("[", "`")%char; ("{", "~")%char]
  else None.

Definition single (c : ascii) : ascii * ascii := (c, c).

(** One byte of the pattern: the next mode and the tokens completed by
    the byte, or [None] for a pattern that is refused. *)
Definition step (m : mode) (c : ascii) : option (mode * list token) :=
  if Ascii.eqb c CStr.NUL then None
  else
    match m with
    | Normal =>
        if Ascii.eqb c "\" then Some (Escape, [])
        else if Ascii.eqb c "[" then Some (BracketStart false false, [])
        else if Ascii.eqb c "{" then Some (BraceLo None, [])
        else if Ascii.eqb c "(" then Some (Normal, [TLParen])
        else if Ascii.eqb c ")" then Some (Normal, [TRParen])
        else if Ascii.eqb c "|" then Some (Normal, [TBar])
        else if Ascii.eqb c "*" then Some (Normal, [TDup 0 None])
        else if Ascii.eqb c "+" then Some (Normal, [TDup 1 None])
        else if Ascii.eqb c "?" then Some (Normal, [TDup 0 (Some 1)])
        else if Ascii.eqb c "." then Some (Normal, [TAtom Any true])
        else if Ascii.eqb c "^" then Some (Normal, [TAtom Bol false])
        else if Ascii.eqb c "$" then Some (Normal, [TAtom Eol false])
        else Some (Normal, [TAtom (Chr c) true])
    | Escape =>
        if is_special c then Some (Normal, [TAtom (Chr c) true]) else None
    | BracketStart negated seen_caret =>
        if Ascii.eqb c "^" && negb seen_caret then Some (BracketStart true true, [])
        else if Ascii.eqb c "[" then Some (ClassOpen negated [], [])
        else Some (InBracket negated [single c] (Some c), [])
    | InBracket negated ranges last =>
        if Ascii.eqb c "]" then Some (Normal, [TAtom (Bracket negated ranges) true])
        else if Ascii.eqb c "[" then Some (ClassOpen negated ranges, [])
        else if Ascii.eqb c "-" then
          match last with
          | Some lo => Some (InRange negated ranges lo, [])
          | None => Some (InBracket negated (single c :: ranges) None, [])
          end
        else Some (InBracket negated (single c :: ranges) (Some c), [])
    | InRange negated ranges lo =>
        if Ascii.eqb c "]" then
          Some (Normal, [TAtom (Bracket negated (single "-"%char :: ranges)) true])
        else if Nat.leb (nat_of_ascii lo) (nat_of_ascii c) then
          Some (InBracket negated ((lo, c) :: ranges) None, [])
        else None
    | ClassOpen negated ranges =>
        let ranges' := single "["%char :: ranges in
        if Ascii.eqb c ":" then Some (InClass negated ranges EmptyString, [])
        else if Ascii.eqb c "." || Ascii.eqb c "=" then None
        else if Ascii.eqb c "]" then
          Some (Normal, [TAtom (Bracket negated ranges') true])
        else if Ascii.eqb c "[" then Some (ClassOpen negated ranges', [])
        else if Ascii.eqb c "-" then Some (InRange negated ranges' "[", [])
        else Some (InBracket negated (single c :: ranges') (Some c), [])
    | InClass negated ranges name =>
        if Ascii.eqb c ":" then Some (ClassClose negated ranges name, [])
        else Some (InClass negated ranges (name ++ String c EmptyString), [])
    | ClassClose negated ranges name =>
        if Ascii.eqb c "]" then
          match class_ranges name with
          | Some rs => Some (InBracket negated (rs ++ ranges) None, [])
          | None => None
          end
        else None
    | BraceLo digits =>
        match digit c with
        | Some d =>
            match push_digit digits d with
            | Some n => Some (BraceLo (Some n), [])
            | None => None
            end
        | None =>
            match digits with
            | Some lo =>
                if Ascii.eqb c "," then Some (BraceHi lo None, [])
                else if Ascii.eqb c "}" then Some (Normal, [TDup lo (Some lo)])
                else None
            | None => None
            end
        end
    | BraceHi lo digits =>
        match digit c with
        | Some d =>
            match push_digit digits d with
            | Some n => Some (BraceHi lo (Some n), [])
            | None => None
            end
        | None =>
            if Ascii.eqb c "}" then
              match digits with
              | None => Some (Normal, [TDup lo None])
              | Some hi => if Nat.leb lo hi then Some (Normal, [TDup lo (Some hi)]) else None
              end
            else None
        end
    end.

Fixpoint scan (m : mode) (pattern : list ascii) : option (list token) :=
  match pattern with
  | [] =>
      match m with
      | Normal => Some []
      | _ => None
      end
  | c :: pattern' =>
      match step m c with
      | Some (m', tokens) =>
          match scan m' pattern' with
          | Some rest => Some (tokens ++ rest)
          | None => None
          end
      | None => None
      end
  end.

(** A group under construction: the finished branches and the pieces of
    the current branch, both latest first. *)
Record frame : Type := Frame {
  alts : list re;
  cur : list re;
  quantifiable : bool
}.

Definition open_frame : frame := Frame [] [] false.

Definition branch (pieces : list re) : re :=
  match pieces with
  | [] => Eps
  | r :: rest => fold_left (fun acc r' => Cat r' acc) rest r
  end.

Definition finish (f : frame) : re :=
  fold_left (fun acc b => Alt b acc) (alts f) (branch (cur f)).

Fixpoint cat_pow (r : re) (n : nat) (tail : re) : re :=
  match n with
  | O => tail
  | S n' => Cat r (cat_pow r n' tail)
  end.

Definition dup (r : re) (lo : nat) (hi : option nat) : re :=
  match hi with
  | None => cat_pow r lo (Star r)
  | Some h => cat_pow r lo (cat_pow (Alt r Eps) (h - lo) Eps)
  end.

Fixpoint parse (tokens : list token) (top : frame) (stack : list frame) : option re :=
  match tokens with
  | [] =>
      match stack with
      | [] => Some (finish top)
      | _ :: _ => None
      end
  | TAtom r q :: rest => parse rest (Frame (alts top) (r :: cur top) q) stack
  | TLParen :: rest => parse rest open_frame (top :: stack)
  | TRParen :: rest =>
      match stack with
      | [] => None
      | f :: stack' => parse rest (Frame (alts f) (finish top :: cur f) true) stack'
      end
  | TBar :: rest => parse rest (Frame (branch (cur top) :: alts top) [] false) stack
  | TDup lo hi :: rest =>
      match cur top with
      | r :: pieces =>
          if quantifiable top
          then parse rest (Frame (alts top) (dup r lo hi :: pieces) true) stack
          else None
      | [] => None
      end
  end.

(** [std::regex(text, extended | optimize)]. *)
Definition compile (text : string) : option re :=
  match scan Normal (list_ascii_of_string text) with
  | Some tokens => parse tokens open_frame []
  | None => None
  end.

End ERESyntax.

(** Modelled from the spec: [readLines] of [mega/utils.h] is not among the
    sources; the stream is reduced to what the reader gets out of it, a
    failure or the lines of the source, of which the empty ones are
    omitted. *)
Definition model_readLines (isAccess : option (list string)) : bool * list string :=
  match isAccess with
  | None => (false, [])
  | Some lines => (true, filter (fun l => negb (String.eqb l EmptyString)) lines)
  end.

Definition Model : Collaborators := {|
  wildcardMatch := Wildcard.wildcardMatch;
  regex := ERE.re;
  regex_compile := ERESyntax.compile;
  regex_match := ERE.regex_match;
  InputStreamAccess := option (list string);
  readLines := model_readLines
|}.

(** ** Rule files and chains used in the examples *)

(** The rule file given as an example of the format. *)
Definition rule_file : option (list string) :=
  Some ["# ignore build artifacts and editor swap files";
        "-N:*.tmp";
        "-p:build/*";
        "+nr:^keep_.*$"].

(** A rule file whose last line has no valid sign. *)
Definition broken_rule_file : option (list string) :=
  Some ["# rules"; "-N:*.tmp"; "x:foo"].

(** A rule file made of comments. *)
Definition comment_file : option (list string) :=
  Some ["# nothing to ignore"; "#-N:*.tmp"].

(** A chain with one exclusion and one inclusion. *)
Definition sample_chain : FilterChain.t (C := Model) :=
  state_after (FilterChain.add "+nr:^keep_.*$"
                 (state_after (FilterChain.add "-n:x" FilterChain.new))).

(** A rule line with a NUL byte inside its pattern, and one whose pattern
    starts with a NUL byte. *)
Definition line_with_nul : string := "-:a" ++ String CStr.NUL "b".

Definition line_nul_first : string := "-:" ++ String CStr.NUL EmptyString.

(** ** [FilterChain::load(FileAccess&)]

    The second overload wraps the file in a [FileInputStream] and loads from
    the stream; [FileInputStream] is a class of [mega/filesystem.h]. *)
Definition load_file {C : Collaborators} {FileAccess : Type}
    (FileInputStream : FileAccess -> InputStreamAccess)
    (ifAccess : FileAccess) (c : FilterChain.t) : bool * FilterChain.t * Log :=
  let isAccess := FileInputStream ifAccess in
  FilterChain.load isAccess c.

(** ** Vocabulary of the further properties *)

(** The string of a pair that a filter is tested against: the name for a
    name rule, the path for a path rule. *)
Definition tested {C : Collaborators} (f : Filter.t) (p : string_pair) : string :=
  match Filter.type f with
  | FT_NAME => fst p
  | FT_PATH => snd p
  end.

(** What [add] and [load] keep true of every filter they store: the text
    has no NUL byte, a path rule is inheritable, and a regex filter holds the
    compiled form of its own text. *)
Definition wf_filter {C : Collaborators} (f : Filter.t) : Prop :=
  CStr.nul_free (Filter.text f) = true
  /\ (Filter.type f = FT_PATH -> Filter.inheritable f = true)
  /\ match f with
     | Filter.GlobFilter _ => True
     | Filter.RegexFilter b re => regex_compile (Filter.mText b) = Some re
     end.

(** Name rules are in [mNames] and path rules in [mPaths]. *)
Definition wf_class {C : Collaborators} (k : FilterClass.t) : Prop :=
  Forall (fun f => wf_filter f /\ Filter.type f = FT_NAME) (FilterClass.mNames k)
  /\ Forall (fun f => wf_filter f /\ Filter.type f = FT_PATH) (FilterClass.mPaths k).

Definition wf_chain {C : Collaborators} (c : FilterChain.t) : Prop :=
  wf_class (FilterChain.mExclusions c) /\ wf_class (FilterChain.mInclusions c).

(** [add] called on each line in turn, whatever it returns. *)
Definition add_all {C : Collaborators} (lines : list string) (c : FilterChain.t)
  : FilterChain.t :=
  fold_left (fun c line => state_after (FilterChain.add line c)) lines c.

(** The lines of a rule file that [load] hands to [add]. *)
Definition parsed_lines (lines : list string) : list string :=
  filter (fun line => negb (Grammar.comment line)) lines.

(** Whether [add] accepts a line. *)
Definition accepted {C : Collaborators} (line : string) : bool :=
  returned (FilterChain.add line FilterChain.new).

(** The example rule file with its first two lines exchanged. *)
Definition rule_file_reordered : option (list string) :=
  Some ["-N:*.tmp";
        "# ignore build artifacts and editor swap files";
        "-p:build/*";
        "+nr:^keep_.*$"].

(** ** Strings and pointers *)

Section StringFacts.

Lemma deref_cons (a : ascii) (s : string) (m : nat) :
  CStr.deref (String a s) (S m) = CStr.deref s m.
Proof. reflexivity. Qed.

Lemma deref_past_end (s : string) (m : nat) :
  String.length s <= m -> CStr.deref s m = CStr.NUL.
Proof.
  revert m; induction s as [|a s IH]; intros m Hm.
  - destruct m; reflexivity.
  - destruct m as [|m]; simpl in Hm; [lia|].
    rewrite deref_cons. apply IH. lia.
Qed.

(** A byte other than NUL is read inside the string, never from the
    terminator. *)
Lemma deref_in_bounds (s : string) (m : nat) :
  CStr.deref s m <> CStr.NUL -> m < String.length s.
Proof.
  intros H. destruct (Nat.lt_ge_cases m (String.length s)) as [Hlt|Hge]; [exact Hlt|].
  exfalso. apply H. now apply deref_past_end.
Qed.

Lemma from_length (s : string) (m : nat) :
  String.length (CStr.from m s) = String.length s - m.
Proof.
  revert m; induction s as [|a s IH]; intros [|m]; simpl; auto.
Qed.

Lemma c_str_nul_free (s : string) :
  CStr.nul_free s = true -> CStr.c_str s = s.
Proof.
  induction s as [|a s IH]; simpl; [reflexivity|].
  destruct (Ascii.eqb a CStr.NUL); simpl; [discriminate|].
  intros H. now rewrite IH.
Qed.

Lemma c_str_is_nul_free (s : string) : CStr.nul_free (CStr.c_str s) = true.
Proof.
  induction s as [|a s IH]; simpl; [reflexivity|].
  destruct (Ascii.eqb a CStr.NUL) eqn:E; simpl; [reflexivity|].
  now rewrite E, IH.
Qed.

Lemma nul_free_from (s : string) (m : nat) :
  CStr.nul_free s = true -> CStr.nul_free (CStr.from m s) = true.
Proof.
  revert m; induction s as [|a s IH]; intros [|m]; simpl; auto.
  intros H. apply andb_true_iff in H. apply IH, H.
Qed.

End StringFacts.

(** ** [isEmpty] *)

Section IsEmpty.

Lemma isEmpty_loop_cons (k : nat) (a : ascii) (s : string) (m w : nat) :
  isEmpty_loop k (String a s) (S m) w = isEmpty_loop k s m w.
Proof.
  revert m w; induction k as [|k IH]; intros m w; simpl; [reflexivity|].
  rewrite deref_cons. apply IH.
Qed.

Lemma isEmpty_loop_from_start (s : string) (w : nat) :
  isEmpty_loop (String.length s) s 0 w = w + spaces s.
Proof.
  revert w; induction s as [|a s IH]; intros w; simpl; [lia|].
  rewrite isEmpty_loop_cons, IH.
  unfold CStr.deref; simpl. unfold Grammar.whitespace.
  destruct (0 <? isspace a)%Z; lia.
Qed.

Lemma isEmpty_loop_from (s : string) (m w : nat) :
  isEmpty_loop (String.length s - m) s m w = w + spaces (CStr.from m s).
Proof.
  revert m w; induction s as [|a s IH]; intros m w.
  - destruct m; simpl; lia.
  - destruct m as [|m].
    + rewrite Nat.sub_0_r. apply isEmpty_loop_from_start.
    + cbn [String.length Nat.sub CStr.from]. rewrite isEmpty_loop_cons. apply IH.
Qed.

Lemma spaces_le (s : string) : spaces s <= String.length s.
Proof.
  induction s as [|a s IH]; simpl; [lia|].
  destruct (Grammar.whitespace a); lia.
Qed.

Lemma spaces_all (s : string) :
  spaces s = String.length s <-> Grammar.blank s = true.
Proof.
  unfold Grammar.blank.
  induction s as [|a s IH]; simpl; [tauto|].
  pose proof (spaces_le s).
  destruct (Grammar.whitespace a); simpl.
  - rewrite <- IH. lia.
  - split; [lia|discriminate].
Qed.

(** [isEmpty(m, n)] with [n] at the end of the buffer tells whether the
    bytes from [m] on are all whitespace (or there is none). *)
Lemma isEmpty_blank (text : string) (m : nat) :
  m <= String.length text ->
  isEmpty text m (String.length text) = Grammar.blank (CStr.from m text).
Proof.
  intros Hm. unfold isEmpty.
  rewrite isEmpty_loop_from.
  pose proof (from_length text m) as Hl.
  pose proof (spaces_le (CStr.from m text)) as Hs.
  destruct (Grammar.blank (CStr.from m text)) eqn:E.
  - apply spaces_all in E. apply Nat.eqb_eq. lia.
  - apply Nat.eqb_neq. intros Heq.
    assert (spaces (CStr.from m text) = String.length (CStr.from m text)) as H by lia.
    apply spaces_all in H. congruence.
Qed.

End IsEmpty.

(** ** [FilterChain::add] follows the grammar *)

Section AddFacts.
Context {C : Collaborators}.

Lemma colon_in_bounds (text : string) (m : nat) :
  Ascii.eqb (CStr.deref text m) ":" = true -> S m <= String.length text.
Proof.
  intros H. apply Ascii.eqb_eq in H.
  apply deref_in_bounds. rewrite H. discriminate.
Qed.

(** [add] computes the rule of the line and routes its filter, or
    reports a syntax error and leaves the chain as it is. *)
Lemma add_rule (text : string) (c : FilterChain.t) :
  FilterChain.add text c =
    match Grammar.rule text with
    | Some (exclusion, f) => (true, route exclusion f c, [adding exclusion f])
    | None => (false, c, [("Syntax error parsing: " ++ text)%string])
    end.
Proof.
  unfold FilterChain.add, Grammar.rule, Grammar.sign.
  destruct (Ascii.eqb (CStr.deref text 0) "-") eqn:Eminus;
    [|destruct (Ascii.eqb (CStr.deref text 0) "+") eqn:Eplus; [|reflexivity]].
  all: unfold Grammar.filter_of, Grammar.filter_text, Grammar.pattern,
         Grammar.strategy, Grammar.inheritable, Grammar.axis, Grammar.colon_pos,
         Grammar.strategy_pos, Grammar.axis_token, Grammar.strategy_token.
  all: destruct (Ascii.eqb (CStr.deref text 1) "N");
         [|destruct (Ascii.eqb (CStr.deref text 1) "n");
           [|destruct (Ascii.eqb (CStr.deref text 1) "p")]];
         cbn [fst snd Nat.add].
  all: match goal with
       | |- context [Ascii.eqb (CStr.deref ?t ?m) "g"] =>
           destruct (Ascii.eqb (CStr.deref t m) "g");
             [|destruct (Ascii.eqb (CStr.deref t m) "r")]
       end; cbn [fst snd Nat.add].
  all: rewrite ?Nat.add_0_r; cbn [Nat.add].
  all: match goal with
       | |- context [Ascii.eqb (CStr.deref ?t ?m) ":"] =>
           destruct (Ascii.eqb (CStr.deref t m) ":") eqn:Ecolon;
             [apply colon_in_bounds in Ecolon|reflexivity]
       end; cbn [negb].
  all: cbn [Nat.add]; rewrite (isEmpty_blank _ _ Ecolon).
  all: match goal with
       | |- context [Grammar.blank ?s] => destruct (Grammar.blank s); [reflexivity|]
       end.
  all: try reflexivity.
  all: unfold Filter.newRegexFilter;
         match goal with
         | |- context [regex_compile ?s] => destruct (regex_compile s); reflexivity
         end.
Qed.

End AddFacts.

(** ** Evaluation of a class of rules *)

Section MatchFacts.
Context {C : Collaborators}.

Lemma match_loop_fst (filters : list Filter.t) (s : string) (oi : bool) :
  fst (FilterClass.match_loop filters s oi)
  = existsb (applies oi) (map (fun f => (f, s)) filters).
Proof.
  induction filters as [|f rest IH]; simpl; [reflexivity|].
  unfold applies at 1, skipped; simpl.
  destruct (oi && negb (Filter.inheritable f)); simpl.
  - rewrite <- IH. now destruct (FilterClass.match_loop rest s oi).
  - destruct (Filter.match_ f s); simpl; [reflexivity|exact IH].
Qed.

Lemma match_loop_snd (filters : list Filter.t) (s : string) (oi : bool) :
  snd (FilterClass.match_loop filters s oi)
  = trace oi (map (fun f => (f, s)) filters).
Proof.
  induction filters as [|f rest IH]; simpl; [reflexivity|].
  unfold skipped; simpl.
  destruct (oi && negb (Filter.inheritable f)); simpl.
  - rewrite <- IH. now destruct (FilterClass.match_loop rest s oi).
  - destruct (Filter.match_ f s); simpl; [reflexivity|exact IH].
Qed.

Lemma trace_app_no_match (oi : bool) (l1 l2 : list (Filter.t * string)) :
  existsb (applies oi) l1 = false ->
  trace oi (l1 ++ l2) = trace oi l1 ++ trace oi l2.
Proof.
  induction l1 as [|fs l1 IH]; simpl; [reflexivity|].
  unfold applies at 1.
  destruct (skipped oi (fst fs)); simpl.
  - intros H. now rewrite IH.
  - destruct (Filter.match_ (fst fs) (snd fs)); simpl; [discriminate|exact IH].
Qed.

Lemma trace_app_match (oi : bool) (l1 l2 : list (Filter.t * string)) :
  existsb (applies oi) l1 = true ->
  trace oi (l1 ++ l2) = trace oi l1.
Proof.
  induction l1 as [|fs l1 IH]; simpl; [discriminate|].
  unfold applies at 1.
  destruct (skipped oi (fst fs)); simpl.
  - intros H. now rewrite IH.
  - destruct (Filter.match_ (fst fs) (snd fs)); simpl; [reflexivity|exact IH].
Qed.

(** The verdict of [match] is the disjunction over the candidates. *)
Lemma match_fst (c : FilterClass.t) (p : string_pair) (oi : bool) :
  fst (FilterClass.match_ c p oi) = existsb (applies oi) (candidates c p).
Proof.
  unfold FilterClass.match_, candidates. rewrite existsb_app.
  rewrite <- !match_loop_fst.
  destruct (FilterClass.match_loop (FilterClass.mPaths c) (snd p) oi) as [[|] l];
    simpl; [reflexivity|].
  now destruct (FilterClass.match_loop (FilterClass.mNames c) (fst p) oi).
Qed.

(** Its diagnostics are those of one pass over the candidates. *)
Lemma match_snd (c : FilterClass.t) (p : string_pair) (oi : bool) :
  snd (FilterClass.match_ c p oi) = trace oi (candidates c p).
Proof.
  unfold FilterClass.match_, candidates.
  pose proof (match_loop_fst (FilterClass.mPaths c) (snd p) oi) as Hf.
  pose proof (match_loop_snd (FilterClass.mPaths c) (snd p) oi) as Hs.
  destruct (FilterClass.match_loop (FilterClass.mPaths c) (snd p) oi) as [[|] l];
    simpl in *.
  - symmetry in Hf. rewrite (trace_app_match _ _ _ Hf). exact Hs.
  - symmetry in Hf. rewrite (trace_app_no_match _ _ _ Hf).
    pose proof (match_loop_snd (FilterClass.mNames c) (fst p) oi) as Hn.
    destruct (FilterClass.match_loop (FilterClass.mNames c) (fst p) oi); simpl in *.
    now rewrite Hs, Hn.
Qed.

Lemma trace_first_match (oi : bool) (pre post : list (Filter.t * string))
    (fs : Filter.t * string) :
  existsb (applies oi) pre = false ->
  applies oi fs = true ->
  trace oi (pre ++ fs :: post)
  = map skipping (filter (skipped oi) (map fst pre)) ++ [matching fs].
Proof.
  intros Hpre Hfs.
  induction pre as [|x pre IH]; simpl in *.
  - unfold applies in Hfs. apply andb_true_iff in Hfs as [Hs Hm].
    apply negb_true_iff in Hs. now rewrite Hs, Hm.
  - apply orb_false_iff in Hpre as [Hx Hpre]. unfold applies in Hx.
    destruct (skipped oi (fst x)); simpl in *.
    + now rewrite IH.
    + rewrite Hx. now apply IH.
Qed.

Lemma trace_no_match (oi : bool) (l : list (Filter.t * string)) :
  existsb (applies oi) l = false ->
  trace oi l = map skipping (filter (skipped oi) (map fst l)).
Proof.
  induction l as [|x l IH]; simpl; [reflexivity|].
  intros H. apply orb_false_iff in H as [Hx H]. unfold applies in Hx.
  destruct (skipped oi (fst x)); simpl in *.
  - now rewrite IH.
  - rewrite Hx. now apply IH.
Qed.

Lemma existsb_permutation {A : Type} (f : A -> bool) (l l' : list A) :
  Permutation l l' -> existsb f l = existsb f l'.
Proof.
  induction 1 as [|x l l' _ IH|x y l|l l' l'' _ IH1 _ IH2]; simpl.
  - reflexivity.
  - now rewrite IH.
  - now destruct (f x), (f y).
  - now rewrite IH1.
Qed.

Lemma applies_weaken (fs : Filter.t * string) :
  applies true fs = true -> applies false fs = true.
Proof.
  unfold applies, skipped; simpl.
  intros H. apply andb_true_iff in H. apply H.
Qed.

Lemma candidates_in (c : FilterClass.t) (p : string_pair) (fs : Filter.t * string) :
  In fs (candidates c p) <->
  (In (fst fs) (FilterClass.mPaths c) /\ snd fs = snd p)
  \/ (In (fst fs) (FilterClass.mNames c) /\ snd fs = fst p).
Proof.
  unfold candidates. rewrite in_app_iff, !in_map_iff.
  split.
  - intros [[f [<- Hin]]|[f [<- Hin]]]; simpl; auto.
  - destruct fs as [f s]; simpl.
    intros [[Hin ->]|[Hin ->]]; [left|right]; exists f; auto.
Qed.

End MatchFacts.

(** C4. Match evaluation.  For every class of rules, pair and
    [onlyInheritable] flag, [FilterClass::match] returns true if and only if
    some rule that the inheritance gate does not skip matches: a path rule
    against the path of the pair or a name rule against its name.  A rule is
    skipped exactly when [onlyInheritable] is true and the rule is not
    inheritable.  The result is the disjunction over the candidates, path
    rules in insertion order followed by name rules in insertion order; the
    first candidate that applies ends the evaluation and is the one the
    diagnostics name, after one line per rule skipped before it.  Reordering
    the rules of either list never changes the result. *)
Theorem match_evaluation {C : Collaborators} (c : FilterClass.t) (p : string_pair)
    (onlyInheritable : bool) :
  (fst (FilterClass.match_ c p onlyInheritable) = true <->
     (exists f, In f (FilterClass.mPaths c)
                /\ skipped onlyInheritable f = false
                /\ Filter.match_ f (snd p) = true)
     \/ (exists f, In f (FilterClass.mNames c)
                   /\ skipped onlyInheritable f = false
                   /\ Filter.match_ f (fst p) = true))
  /\ (forall f, skipped onlyInheritable f = true <->
                onlyInheritable = true /\ Filter.inheritable f = false)
  /\ fst (FilterClass.match_ c p onlyInheritable)
     = existsb (applies onlyInheritable)
         (map (fun f => (f, snd p)) (FilterClass.mPaths c)
          ++ map (fun f => (f, fst p)) (FilterClass.mNames c))
  /\ (forall pre fs post,
        candidates c p = pre ++ fs :: post ->
        existsb (applies onlyInheritable) pre = false ->
        applies onlyInheritable fs = true ->
        FilterClass.match_ c p onlyInheritable
        = (true,
           map skipping (filter (skipped onlyInheritable) (map fst pre))
           ++ [matching fs]))
  /\ (existsb (applies onlyInheritable) (candidates c p) = false ->
      FilterClass.match_ c p onlyInheritable
      = (false,
         map skipping (filter (skipped onlyInheritable) (map fst (candidates c p)))))
  /\ (forall c',
        Permutation (FilterClass.mPaths c) (FilterClass.mPaths c') ->
        Permutation (FilterClass.mNames c) (FilterClass.mNames c') ->
        fst (FilterClass.match_ c' p onlyInheritable)
        = fst (FilterClass.match_ c p onlyInheritable)).
Proof.
  refine (conj _ (conj _ (conj _ (conj _ (conj _ _))))).
  - rewrite match_fst. split.
    + intros H. apply existsb_exists in H as [[f s] [Hin Happ]].
      apply candidates_in in Hin. unfold applies in Happ. simpl in *.
      apply andb_true_iff in Happ as [Hs Hm]. apply negb_true_iff in Hs.
      destruct Hin as [[Hin ->]|[Hin ->]]; [left|right]; exists f; auto.
    + intros H. apply existsb_exists.
      destruct H as [[f [Hin [Hs Hm]]]|[f [Hin [Hs Hm]]]].
      * exists (f, snd p). split; [apply candidates_in; left; auto|].
        unfold applies; simpl. now rewrite Hs, Hm.
      * exists (f, fst p). split; [apply candidates_in; right; auto|].
        unfold applies; simpl. now rewrite Hs, Hm.
  - intros f. unfold skipped. rewrite andb_true_iff, negb_true_iff. tauto.
  - apply match_fst.
  - intros pre fs post Hc Hpre Hfs.
    rewrite (surjective_pairing (FilterClass.match_ c p onlyInheritable)).
    rewrite match_fst, match_snd, Hc.
    rewrite (trace_first_match _ _ _ _ Hpre Hfs).
    rewrite existsb_app. simpl. now rewrite Hpre, Hfs.
  - intros H.
    rewrite (surjective_pairing (FilterClass.match_ c p onlyInheritable)).
    now rewrite match_fst, match_snd, H, (trace_no_match _ _ H).
  - intros c' HP HN. rewrite !match_fst. apply existsb_permutation.
    unfold candidates. apply Permutation_app; apply Permutation_map;
      now apply Permutation_sym.
Qed.

(** C9. Inheritance-restriction monotonicity.  For every chain and every
    pair, when [excluded] holds with [onlyInheritable] set it also holds
    without, and likewise for [included]: the flag only removes rules from
    consideration. *)
Theorem only_inheritable_monotone {C : Collaborators} (c : FilterChain.t)
    (p : string_pair) :
  (fst (FilterChain.excluded c p true) = true ->
   fst (FilterChain.excluded c p false) = true)
  /\ (fst (FilterChain.included c p true) = true ->
      fst (FilterChain.included c p false) = true).
Proof.
  unfold FilterChain.excluded, FilterChain.included.
  split; rewrite !match_fst; intros H;
    apply existsb_exists in H as [fs [Hin Happ]];
    apply existsb_exists; exists fs; auto using applies_weaken.
Qed.

(** ** The contract of [FilterChain::add] *)

Section AddContract.
Context {C : Collaborators}.

Lemma filter_of_none (text : string) :
  Grammar.filter_of text = None <-> Grammar.regex_fails text.
Proof.
  unfold Grammar.filter_of, Grammar.regex_fails, Filter.newRegexFilter.
  destruct (Grammar.strategy text).
  - split; [discriminate|intros [H _]; discriminate].
  - destruct (regex_compile (Grammar.filter_text text)).
    + split; [discriminate|intros [_ H]; discriminate].
    + tauto.
Qed.

(** A line has no rule exactly in the four cases of a syntax error. *)
Lemma rule_none (text : string) :
  Grammar.rule text = None <-> Grammar.rejected text.
Proof.
  unfold Grammar.rule, Grammar.rejected, Grammar.invalid_sign,
    Grammar.missing_colon, Grammar.blank_pattern.
  rewrite <- filter_of_none.
  destruct (Grammar.sign (CStr.deref text 0)) as [exclusion|]; [|tauto].
  destruct (Ascii.eqb (CStr.deref text (Grammar.colon_pos text)) ":") eqn:Ecolon;
    simpl.
  - apply Ascii.eqb_eq in Ecolon.
    destruct (Grammar.blank (Grammar.pattern text)); [tauto|].
    destruct (Grammar.filter_of text).
    + split; [discriminate|].
      intros [H|[H|[H|H]]]; congruence.
    + tauto.
  - apply Ascii.eqb_neq in Ecolon. tauto.
Qed.

Lemma rule_sign (text : string) (exclusion : bool) (f : Filter.t) :
  Grammar.rule text = Some (exclusion, f) ->
  Grammar.sign (CStr.deref text 0) = Some exclusion
  /\ CStr.deref text (Grammar.colon_pos text) = ":"%char
  /\ Grammar.blank (Grammar.pattern text) = false
  /\ Grammar.filter_of text = Some f.
Proof.
  unfold Grammar.rule.
  destruct (Grammar.sign (CStr.deref text 0)) as [e|]; [|discriminate].
  destruct (Ascii.eqb (CStr.deref text (Grammar.colon_pos text)) ":") eqn:Ecolon;
    simpl; [|discriminate].
  apply Ascii.eqb_eq in Ecolon.
  destruct (Grammar.blank (Grammar.pattern text)); [discriminate|].
  destruct (Grammar.filter_of text); [|discriminate].
  intros H. injection H as -> ->. auto.
Qed.

(** The filter of a line has the axis, flag, strategy and text that the
    grammar derives. *)
Lemma filter_of_fields (text : string) (f : Filter.t) :
  Grammar.filter_of text = Some f ->
  Filter.type f = Grammar.axis text
  /\ Filter.inheritable f = Grammar.inheritable text
  /\ Filter.strategy f = Grammar.strategy text
  /\ Filter.text f = Grammar.filter_text text.
Proof.
  unfold Grammar.filter_of, Filter.newRegexFilter, Filter.newGlobFilter.
  destruct (Grammar.strategy text).
  - intros H. injection H as <-. auto.
  - destruct (regex_compile (Grammar.filter_text text)); [|discriminate].
    intros H. injection H as <-. auto.
Qed.

Lemma sign_char (c : ascii) (exclusion : bool) :
  Grammar.sign c = Some exclusion ->
  c = (if exclusion then "-" else "+")%char.
Proof.
  unfold Grammar.sign.
  destruct (Ascii.eqb c "-") eqn:E1; [|destruct (Ascii.eqb c "+") eqn:E2].
  - intros H. injection H as <-. now apply Ascii.eqb_eq.
  - intros H. injection H as <-. now apply Ascii.eqb_eq.
  - discriminate.
Qed.

Lemma class_add_appended (f : Filter.t) (k : FilterClass.t) :
  appended f k (FilterClass.add f k).
Proof.
  unfold appended, FilterClass.add.
  destruct (Filter.type f); simpl; auto.
Qed.

Lemma add_returned (text : string) (c : FilterChain.t) :
  returned (FilterChain.add text c)
  = match Grammar.rule text with Some _ => true | None => false end.
Proof.
  rewrite add_rule. now destruct (Grammar.rule text) as [[e f]|].
Qed.

Lemma add_state (text : string) (c : FilterChain.t) :
  state_after (FilterChain.add text c)
  = match Grammar.rule text with
    | Some (exclusion, f) => route exclusion f c
    | None => c
    end.
Proof.
  rewrite add_rule. now destruct (Grammar.rule text) as [[e f]|].
Qed.

(** Whether [add] accepts a line does not depend on the chain. *)
Lemma add_returned_any (text : string) (c c' : FilterChain.t) :
  returned (FilterChain.add text c) = returned (FilterChain.add text c').
Proof. now rewrite !add_returned. Qed.

(** For a line without a NUL byte the filter keeps the characters after
    the colon as they are. *)
Lemma filter_text_nul_free (text : string) :
  CStr.nul_free text = true -> Grammar.filter_text text = Grammar.pattern text.
Proof.
  intros H. unfold Grammar.filter_text, Grammar.pattern.
  apply c_str_nul_free. now apply nul_free_from.
Qed.

End AddContract.

(** C2. The contract of [FilterChain::add].  For every line and every
    chain, [add] returns false exactly when the line has an invalid leading
    sign, or lacks the colon after the optional axis and strategy tokens, or
    has a pattern (the characters after the colon) that is empty or all
    whitespace, or asks for a regex whose pattern text fails to compile; it
    then leaves the chain as it was.  Otherwise it returns true and the chain
    differs by exactly one filter, appended to the exclusions for the sign
    [-] and to the inclusions for the sign [+], the other set being
    untouched. *)
Theorem add_contract {C : Collaborators} (text : string) (c : FilterChain.t) :
  (returned (FilterChain.add text c) = false <->
     Grammar.invalid_sign text
     \/ Grammar.missing_colon text
     \/ Grammar.blank_pattern text
     \/ Grammar.regex_fails text)
  /\ (returned (FilterChain.add text c) = false ->
      state_after (FilterChain.add text c) = c)
  /\ (returned (FilterChain.add text c) = true ->
      exists f,
        (CStr.deref text 0 = "-"%char
         /\ appended f (FilterChain.mExclusions c)
              (FilterChain.mExclusions (state_after (FilterChain.add text c)))
         /\ FilterChain.mInclusions (state_after (FilterChain.add text c))
            = FilterChain.mInclusions c)
        \/ (CStr.deref text 0 = "+"%char
            /\ appended f (FilterChain.mInclusions c)
                 (FilterChain.mInclusions (state_after (FilterChain.add text c)))
            /\ FilterChain.mExclusions (state_after (FilterChain.add text c))
               = FilterChain.mExclusions c)).
Proof.
  rewrite add_returned, add_state.
  pose proof (rule_none text) as Hnone. unfold Grammar.rejected in Hnone.
  destruct (Grammar.rule text) as [[exclusion f]|] eqn:Hrule.
  - split; [|split].
    + rewrite <- Hnone. split; discriminate.
    + discriminate.
    + intros _. exists f.
      apply rule_sign in Hrule as [Hsign _]. apply sign_char in Hsign.
      destruct exclusion; [left|right]; simpl;
        auto using class_add_appended.
  - split; [|split].
    + rewrite <- Hnone. tauto.
    + reflexivity.
    + discriminate.
Qed.

(** C3. The token grammar of [add].  After the sign, the axis token [N]
    gives a name rule that is not inheritable and takes one character, [n] an
    inheritable name rule and one character, [p] an inheritable path rule and
    one character, anything else an inheritable name rule and no character;
    then the strategy token [g] gives glob matching and takes one character,
    [r] regex matching and one character, anything else glob matching and no
    character.  For every line that [add] accepts, the filter that is added
    has the axis, the inheritable flag and the strategy derived by these
    rules from the character after the sign and from the character after the
    axis token, and the colon stands right after the characters taken. *)
Theorem add_token_grammar {C : Collaborators} (text : string) (c : FilterChain.t) :
  returned (FilterChain.add text c) = true ->
  let axis := Grammar.axis_token (CStr.deref text 1) in
  let strategy := Grammar.strategy_token (CStr.deref text (1 + snd axis)) in
  (Grammar.axis_token "N" = (FT_NAME, false, 1)
   /\ Grammar.axis_token "n" = (FT_NAME, true, 1)
   /\ Grammar.axis_token "p" = (FT_PATH, true, 1)
   /\ (forall a, a <> "N"%char -> a <> "n"%char -> a <> "p"%char ->
                 Grammar.axis_token a = (FT_NAME, true, 0))
   /\ Grammar.strategy_token "g" = (FS_GLOB, 1)
   /\ Grammar.strategy_token "r" = (FS_REGEX, 1)
   /\ (forall s, s <> "g"%char -> s <> "r"%char ->
                 Grammar.strategy_token s = (FS_GLOB, 0)))
  /\ exists exclusion f,
       Grammar.sign (CStr.deref text 0) = Some exclusion
       /\ state_after (FilterChain.add text c) = route exclusion f c
       /\ Filter.type f = fst (fst axis)
       /\ Filter.inheritable f = snd (fst axis)
       /\ Filter.strategy f = fst strategy
       /\ CStr.deref text (1 + snd axis + snd strategy) = ":"%char
       /\ Filter.text f = CStr.c_str (CStr.from (2 + snd axis + snd strategy) text).
Proof.
  intros Hok axis strategy. split.
  - repeat split; try reflexivity.
    + intros a H1 H2 H3. unfold Grammar.axis_token.
      apply Ascii.eqb_neq in H1, H2, H3. now rewrite H1, H2, H3.
    + intros s H1 H2. unfold Grammar.strategy_token.
      apply Ascii.eqb_neq in H1, H2. now rewrite H1, H2.
  - rewrite add_returned in Hok. rewrite add_state.
    destruct (Grammar.rule text) as [[exclusion f]|] eqn:Hrule; [|discriminate].
    exists exclusion, f.
    apply rule_sign in Hrule as [Hsign [Hcolon [_ Hf]]].
    apply filter_of_fields in Hf as [Ht [Hi [Hs Hx]]].
    repeat split; auto.
Qed.

(** C7. Directional independence.  [excluded] is a function of the
    exclusions alone and [included] of the inclusions alone; a line with the
    sign [-] is never added to the inclusions and a line with the sign [+]
    never to the exclusions, so adding a rule to one direction changes no
    answer of the other direction.  After [add("-N:x")] and [add("+N:x")],
    with a wildcard matcher for which the pattern [x] matches the candidate
    [x], the pair (x, x) is both excluded and included. *)
Theorem directional_independence {C : Collaborators} :
  (forall c c' p onlyInheritable,
      FilterChain.mExclusions c = FilterChain.mExclusions c' ->
      FilterChain.excluded c p onlyInheritable
      = FilterChain.excluded c' p onlyInheritable)
  /\ (forall c c' p onlyInheritable,
         FilterChain.mInclusions c = FilterChain.mInclusions c' ->
         FilterChain.included c p onlyInheritable
         = FilterChain.included c' p onlyInheritable)
  /\ (forall text c,
         CStr.deref text 0 = "-"%char ->
         FilterChain.mInclusions (state_after (FilterChain.add text c))
         = FilterChain.mInclusions c
         /\ forall p onlyInheritable,
              FilterChain.included (state_after (FilterChain.add text c)) p onlyInheritable
              = FilterChain.included c p onlyInheritable)
  /\ (forall text c,
         CStr.deref text 0 = "+"%char ->
         FilterChain.mExclusions (state_after (FilterChain.add text c))
         = FilterChain.mExclusions c
         /\ forall p onlyInheritable,
              FilterChain.excluded (state_after (FilterChain.add text c)) p onlyInheritable
              = FilterChain.excluded c p onlyInheritable)
  /\ (wildcardMatch "x" "x" = true ->
      forall c,
        let c1 := state_after (FilterChain.add "-N:x" c) in
        let c2 := state_after (FilterChain.add "+N:x" c1) in
        returned (FilterChain.add "-N:x" c) = true
        /\ returned (FilterChain.add "+N:x" c1) = true
        /\ fst (FilterChain.excluded c2 ("x", "x") false) = true
        /\ fst (FilterChain.included c2 ("x", "x") false) = true).
Proof.
  assert (Hframe : forall text c e,
             Grammar.sign (CStr.deref text 0) = Some e ->
             (if e then FilterChain.mInclusions (state_after (FilterChain.add text c))
                        = FilterChain.mInclusions c
              else FilterChain.mExclusions (state_after (FilterChain.add text c))
                   = FilterChain.mExclusions c)).
  { intros text c e Hsign. rewrite add_state.
    destruct (Grammar.rule text) as [[e' f]|] eqn:Hrule.
    - apply rule_sign in Hrule as [Hsign' _].
      rewrite Hsign in Hsign'. injection Hsign' as <-.
      now destruct e.
    - now destruct e. }
  refine (conj _ (conj _ (conj _ (conj _ _)))).
  - intros c c' p oi H. unfold FilterChain.excluded. now rewrite H.
  - intros c c' p oi H. unfold FilterChain.included. now rewrite H.
  - intros text c Hminus.
    assert (H : FilterChain.mInclusions (state_after (FilterChain.add text c))
                = FilterChain.mInclusions c).
    { apply (Hframe text c true). now rewrite Hminus. }
    split; [exact H|]. intros p oi. unfold FilterChain.included. now rewrite H.
  - intros text c Hplus.
    assert (H : FilterChain.mExclusions (state_after (FilterChain.add text c))
                = FilterChain.mExclusions c).
    { apply (Hframe text c false). now rewrite Hplus. }
    split; [exact H|]. intros p oi. unfold FilterChain.excluded. now rewrite H.
  - intros Hx c c1 c2. subst c1 c2.
    rewrite !add_returned, !add_state.
    change (Grammar.rule "-N:x")
      with (Some (true, Filter.newGlobFilter "x" false FT_NAME)).
    change (Grammar.rule "+N:x")
      with (Some (false, Filter.newGlobFilter "x" false FT_NAME)).
    assert (Happ : applies false (Filter.newGlobFilter "x" false FT_NAME, "x") = true).
    { unfold applies; simpl. exact Hx. }
    unfold FilterChain.excluded, FilterChain.included.
    rewrite !match_fst. unfold route, candidates, FilterClass.add.
    cbn [Filter.type Filter.base Filter.newGlobFilter Filter.mType
         FilterChain.mExclusions FilterChain.mInclusions
         FilterClass.mNames FilterClass.mPaths fst snd].
    rewrite !map_app, !existsb_app.
    cbn [map existsb]. rewrite Happ.
    repeat split; now rewrite ?orb_true_r.
Qed.

(** C8. Round trip.  From any chain, [add("-p:*.log")] succeeds; the filter
    it appends to the path rules of the exclusions has the axis Path, the
    strategy Glob and the text [*.log], the characters after the colon as
    they are, and it is rendered for the diagnostics as
    [PATH/GLOB:*.log]. *)
Theorem add_render_round_trip {C : Collaborators} (c : FilterChain.t) :
  let r := FilterChain.add "-p:*.log" c in
  returned r = true
  /\ exists f,
       FilterClass.mPaths (FilterChain.mExclusions (state_after r))
       = FilterClass.mPaths (FilterChain.mExclusions c) ++ [f]
       /\ FilterClass.mNames (FilterChain.mExclusions (state_after r))
          = FilterClass.mNames (FilterChain.mExclusions c)
       /\ FilterChain.mInclusions (state_after r) = FilterChain.mInclusions c
       /\ Filter.type f = FT_PATH
       /\ Filter.strategy f = FS_GLOB
       /\ Filter.text f = "*.log"
       /\ Filter.text f = CStr.from 3 "-p:*.log"
       /\ Filter.inheritable f = true
       /\ Filter.toString f = "PATH/GLOB:*.log"
       /\ FilterType_toString (Filter.type f) = "PATH"
       /\ FilterStrategy_toString (Filter.strategy f) = "GLOB"
       /\ logged r = ["Adding exclusion PATH/GLOB:*.log"].
Proof.
  intros r. subst r. rewrite add_rule.
  change (Grammar.rule "-p:*.log")
    with (Some (true, Filter.newGlobFilter "*.log" true FT_PATH)).
  split; [reflexivity|].
  exists (Filter.newGlobFilter "*.log" true FT_PATH).
  repeat split.
Qed.

(** ** The transactional reload *)

Section LoadFacts.
Context {C : Collaborators}.

Lemma chain_eta (c : FilterChain.t) :
  FilterChain.Make (FilterChain.mExclusions c) (FilterChain.mInclusions c) = c.
Proof. now destruct c. Qed.

Lemma chain_by_lists (c c' : FilterChain.t) :
  (forall e t, rule_list e t c = rule_list e t c') -> c = c'.
Proof.
  intros H.
  pose proof (H true FT_NAME) as H1. pose proof (H true FT_PATH) as H2.
  pose proof (H false FT_NAME) as H3. pose proof (H false FT_PATH) as H4.
  destruct c as [[en ep] [inn ip]], c' as [[en' ep'] [inn' ip']].
  unfold rule_list in *; simpl in *. congruence.
Qed.

Lemma rule_list_route (e e' : bool) (t : FilterType) (f : Filter.t)
    (c : FilterChain.t) :
  rule_list e t (route e' f c) = rule_list e t c ++ select e t [(e', f)].
Proof.
  unfold rule_list, route, select, FilterClass.add; simpl.
  destruct e, e', t, (Filter.type f); simpl; now rewrite ?app_nil_r.
Qed.

Lemma select_app (e : bool) (t : FilterType) (l1 l2 : list (bool * Filter.t)) :
  select e t (l1 ++ l2) = select e t l1 ++ select e t l2.
Proof. unfold select. now rewrite filter_app, map_app. Qed.

Lemma rule_list_route_all (e : bool) (t : FilterType) (rules : list (bool * Filter.t))
    (c : FilterChain.t) :
  rule_list e t (route_all rules c) = rule_list e t c ++ select e t rules.
Proof.
  revert c; induction rules as [|[e' f] rules IH]; intros c; simpl.
  - unfold select; simpl. now rewrite app_nil_r.
  - unfold route_all in *; simpl. rewrite IH, rule_list_route, <- app_assoc.
    now rewrite <- select_app.
Qed.

(** Building from the empty chain gives the chain of the rules. *)
Lemma route_all_new (rules : list (bool * Filter.t)) :
  route_all rules (FilterChain.clear (FilterChain.Make FilterClass.new FilterClass.new))
  = chain_of rules.
Proof.
  apply chain_by_lists. intros e t. rewrite rule_list_route_all.
  destruct e, t; reflexivity.
Qed.

Lemma rules_of_cons (line : string) (lines : list string) :
  rules_of (line :: lines)
  = if Grammar.comment line then rules_of lines
    else match Grammar.rule line with
         | Some r => r :: rules_of lines
         | None => rules_of lines
         end.
Proof.
  unfold rules_of; simpl.
  destruct (Grammar.comment line); simpl; [reflexivity|].
  now destruct (Grammar.rule line).
Qed.

(** The loop when every line that is parsed is accepted. *)
Lemma load_loop_ok (lines : list string) (e i : FilterClass.t) (c : FilterChain.t) :
  (forall line, In line lines -> Grammar.comment line = false ->
                Grammar.rule line <> None) ->
  FilterChain.load_loop lines e i c
  = (true, route_all (rules_of lines) c,
     map (fun r => adding (fst r) (snd r)) (rules_of lines)).
Proof.
  revert c; induction lines as [|line lines IH]; intros c Hall; [reflexivity|].
  cbn [FilterChain.load_loop]. rewrite rules_of_cons.
  change (Ascii.eqb (CStr.deref line 0) "#") with (Grammar.comment line).
  assert (Hrest : forall l, In l lines -> Grammar.comment l = false ->
                            Grammar.rule l <> None).
  { intros l Hin. apply Hall. now right. }
  destruct (Grammar.comment line) eqn:Ecomment.
  - now apply IH.
  - rewrite add_rule.
    destruct (Grammar.rule line) as [[ex f]|] eqn:Hrule.
    + cbn [negb]. rewrite (IH _ Hrest). reflexivity.
    + exfalso. apply (Hall line); auto. now left.
Qed.

(** The loop when some line that is parsed is refused. *)
Lemma load_loop_fail (lines : list string) (e i : FilterClass.t) (c : FilterChain.t) :
  (exists line, In line lines /\ Grammar.comment line = false
                /\ Grammar.rule line = None) ->
  returned (FilterChain.load_loop lines e i c) = false
  /\ state_after (FilterChain.load_loop lines e i c) = FilterChain.Make e i.
Proof.
  revert c; induction lines as [|line lines IH]; intros c [bad [Hin [Hc Hr]]].
  - destruct Hin.
  - cbn [FilterChain.load_loop].
    change (Ascii.eqb (CStr.deref line 0) "#") with (Grammar.comment line).
    destruct (Grammar.comment line) eqn:Ecomment.
    + apply IH. destruct Hin as [->|Hin]; [congruence|]. now exists bad.
    + rewrite add_rule.
      destruct (Grammar.rule line) as [[ex f]|] eqn:Hrule.
      * cbn [negb].
        assert (Hex : exists l, In l lines /\ Grammar.comment l = false
                                /\ Grammar.rule l = None).
        { destruct Hin as [->|Hin]; [congruence|]. now exists bad. }
        specialize (IH (route ex f c) Hex).
        destruct (FilterChain.load_loop lines e i (route ex f c)) as [[r c''] l'].
        exact IH.
      * split; reflexivity.
Qed.

Lemma rules_of_rule (lines : list string) :
  (forall line, In line lines -> Grammar.comment line = false ->
                Grammar.rule line <> None) ->
  map Grammar.rule (filter (fun line => negb (Grammar.comment line)) lines)
  = map Some (rules_of lines).
Proof.
  induction lines as [|line lines IH]; intros Hall; [reflexivity|].
  rewrite rules_of_cons. simpl.
  assert (Hrest : forall l, In l lines -> Grammar.comment l = false ->
                            Grammar.rule l <> None).
  { intros l Hin. apply Hall. now right. }
  destruct (Grammar.comment line) eqn:Ecomment; simpl.
  - now apply IH.
  - destruct (Grammar.rule line) as [r|] eqn:Hrule.
    + simpl. now rewrite IH.
    + exfalso. apply (Hall line); auto. now left.
Qed.

Lemma rules_of_comments (lines : list string) :
  (forall line, In line lines -> Grammar.comment line = true) ->
  rules_of lines = [].
Proof.
  induction lines as [|line lines IH]; intros Hall; [reflexivity|].
  rewrite rules_of_cons, (Hall line (or_introl eq_refl)).
  apply IH. intros l Hin. apply Hall. now right.
Qed.

End LoadFacts.

(** C1. Atomic reload.  For every chain state R, when the lines cannot be
    read, or when one of the lines read is not a comment and is refused by
    the grammar, [load] returns false and the chain is R again: [excluded]
    and [included] answer as they did for every pair and flag, and no filter
    parsed during the attempt is kept. *)
Theorem load_atomic {C : Collaborators} (isAccess : InputStreamAccess)
    (R : FilterChain.t) :
  fst (readLines isAccess) = false
  \/ (exists line, In line (snd (readLines isAccess))
                   /\ Grammar.comment line = false
                   /\ Grammar.rejected line) ->
  returned (FilterChain.load isAccess R) = false
  /\ state_after (FilterChain.load isAccess R) = R
  /\ forall p onlyInheritable,
       FilterChain.excluded (state_after (FilterChain.load isAccess R)) p onlyInheritable
       = FilterChain.excluded R p onlyInheritable
       /\ FilterChain.included (state_after (FilterChain.load isAccess R)) p onlyInheritable
          = FilterChain.included R p onlyInheritable.
Proof.
  intros H.
  assert (Hload : returned (FilterChain.load isAccess R) = false
                  /\ state_after (FilterChain.load isAccess R) = R).
  { unfold FilterChain.load.
    destruct (readLines isAccess) as [ok filters]; simpl in H.
    destruct ok; cbn [negb]; [|split; reflexivity].
    destruct H as [H|[line [Hin [Hc Hr]]]]; [discriminate|].
    pose proof (load_loop_fail filters (FilterChain.mExclusions R)
                  (FilterChain.mInclusions R)
                  (FilterChain.clear (FilterChain.Make FilterClass.new FilterClass.new)))
      as Hfail.
    rewrite chain_eta in Hfail. apply Hfail.
    exists line. now rewrite rule_none. }
  destruct Hload as [Hret Hstate].
  split; [exact Hret|]. split; [exact Hstate|].
  intros p oi. now rewrite Hstate.
Qed.

(** C5. A successful reload replaces.  For every chain, when the lines are
    read and every line that is not a comment is accepted by the grammar,
    [load] returns true; the lines that start with [#] are skipped, each of
    the other lines is parsed and leaves one line of diagnostics, and
    afterwards the chain holds exactly the filters of those lines, in their
    order, each in the list of its direction and axis.  Nothing of the rules
    loaded before is left: the outcome is the same from any chain. *)
Theorem load_replaces {C : Collaborators} (isAccess : InputStreamAccess)
    (c : FilterChain.t) :
  fst (readLines isAccess) = true ->
  (forall line, In line (snd (readLines isAccess)) ->
                Grammar.comment line = false -> ~ Grammar.rejected line) ->
  let lines := snd (readLines isAccess) in
  let parsed := filter (fun line => negb (Grammar.comment line)) lines in
  returned (FilterChain.load isAccess c) = true
  /\ map Grammar.rule parsed = map Some (rules_of lines)
  /\ state_after (FilterChain.load isAccess c) = chain_of (rules_of lines)
  /\ (forall exclusion type,
        rule_list exclusion type (state_after (FilterChain.load isAccess c))
        = map snd
            (filter (fun r => Bool.eqb (fst r) exclusion
                              && match Filter.type (snd r), type with
                                 | FT_NAME, FT_NAME => true
                                 | FT_PATH, FT_PATH => true
                                 | _, _ => false
                                 end)
                    (rules_of lines)))
  /\ logged (FilterChain.load isAccess c)
     = map (fun r => adding (fst r) (snd r)) (rules_of lines)
  /\ forall c', FilterChain.load isAccess c' = FilterChain.load isAccess c.
Proof.
  intros Hread Hvalid lines parsed. subst lines parsed.
  assert (Hall : forall line, In line (snd (readLines isAccess)) ->
                              Grammar.comment line = false ->
                              Grammar.rule line <> None).
  { intros line Hin Hc Hr. apply (Hvalid line Hin Hc). now apply rule_none. }
  assert (Hload : forall c0,
             FilterChain.load isAccess c0
             = (true, chain_of (rules_of (snd (readLines isAccess))),
                map (fun r => adding (fst r) (snd r))
                    (rules_of (snd (readLines isAccess))))).
  { intros c0. unfold FilterChain.load.
    destruct (readLines isAccess) as [ok filters]; simpl in *. subst ok.
    cbn [negb]. rewrite (load_loop_ok _ _ _ _ Hall). now rewrite route_all_new. }
  rewrite (Hload c).
  refine (conj eq_refl (conj _ (conj eq_refl (conj _ (conj eq_refl _))))).
  - now apply rules_of_rule.
  - intros e t. destruct e, t; reflexivity.
  - intros c'. apply Hload.
Qed.

(** C10. An empty reload erases.  For every chain, when the lines are read
    and each of them is a comment, or there is none, [load] returns true and
    afterwards [empty] holds and [excluded] and [included] are false for
    every pair and flag: the rules loaded before are gone. *)
Theorem load_comments_only_erases {C : Collaborators} (isAccess : InputStreamAccess)
    (c : FilterChain.t) :
  fst (readLines isAccess) = true ->
  (forall line, In line (snd (readLines isAccess)) -> Grammar.comment line = true) ->
  returned (FilterChain.load isAccess c) = true
  /\ FilterChain.empty (state_after (FilterChain.load isAccess c)) = true
  /\ forall p onlyInheritable,
       fst (FilterChain.excluded (state_after (FilterChain.load isAccess c)) p
              onlyInheritable) = false
       /\ fst (FilterChain.included (state_after (FilterChain.load isAccess c)) p
                 onlyInheritable) = false.
Proof.
  intros Hread Hcomments.
  assert (Hload : FilterChain.load isAccess c
                  = (true, FilterChain.Make FilterClass.new FilterClass.new, [])).
  { unfold FilterChain.load.
    destruct (readLines isAccess) as [ok filters]; simpl in *. subst ok.
    cbn [negb]. rewrite load_loop_ok.
    - now rewrite (rules_of_comments _ Hcomments).
    - intros line Hin Hc. rewrite (Hcomments line Hin) in Hc. discriminate. }
  rewrite Hload. repeat split.
Qed.

(** ** The regular-expression model: the matcher decides the language *)

Section EREFacts.
Import ERE.

Lemma lang_nil_cat (r1 r2 : re) (bs be : bool) :
  lang r1 bs be [] -> lang r2 bs be [] -> lang (Cat r1 r2) bs be [].
Proof.
  intros H1 H2. change (@nil ascii) with (@nil ascii ++ []).
  constructor; simpl; now rewrite andb_true_r.
Qed.

Lemma nullable_sound (r : re) (bs be : bool) :
  nullable bs be r = true -> lang r bs be [].
Proof.
  induction r; simpl; intros H; try discriminate.
  - constructor.
  - subst bs. constructor.
  - subst be. constructor.
  - apply andb_true_iff in H as [H1 H2]. apply lang_nil_cat; auto.
  - apply orb_true_iff in H as [H|H]; [apply L_AltL|apply L_AltR]; auto.
  - constructor.
Qed.

Lemma nullable_complete (r : re) (bs be : bool) (s : list ascii) :
  lang r bs be s -> s = [] -> nullable bs be r = true.
Proof.
  induction 1; intros Hs; simpl; try discriminate; try reflexivity.
  - apply app_eq_nil in Hs as [-> ->]. simpl in *.
    rewrite andb_true_r in *. now rewrite IHlang1, IHlang2.
  - now rewrite IHlang.
  - rewrite IHlang by assumption. apply orb_true_r.
Qed.

Lemma nullable_lang (r : re) (bs be : bool) :
  nullable bs be r = true <-> lang r bs be [].
Proof.
  split; [apply nullable_sound|].
  intros H. now apply (nullable_complete _ _ _ _ H).
Qed.

Lemma deriv_sound (r : re) (bs be : bool) (c : ascii) (s : list ascii) :
  lang (deriv bs c r) false be s -> lang r bs be (c :: s).
Proof.
  revert bs be s; induction r; intros bs be s H; simpl in H;
    try (inversion H; fail).
  - destruct (Ascii.eqb_spec c0 c) as [->|]; inversion H; subst. constructor.
  - destruct (Ascii.eqb_spec c CStr.NUL); inversion H; subst. now constructor.
  - destruct (in_bracket negated ranges c) eqn:E; inversion H; subst.
    now constructor.
  - inversion H as [| | | | | | |? ? ? ? ? H1|? ? ? ? ? H1| |]; subst.
    + inversion H1 as [| | | | | |? ? ? ? s1 s2 Ha Hb| | | |]; subst.
      apply IHr1 in Ha. simpl in Hb.
      change (c :: s1 ++ s2) with ((c :: s1) ++ s2).
      constructor; [exact Ha|]. simpl. now rewrite andb_false_r.
    + destruct (nullable bs false r1) eqn:En; [|inversion H1].
      apply nullable_sound in En. apply IHr2 in H1.
      change (c :: s) with ([] ++ c :: s).
      constructor; simpl; [now rewrite andb_false_r|now rewrite andb_true_r].
  - inversion H; subst; [apply L_AltL|apply L_AltR]; auto.
  - inversion H as [| | | | | |? ? ? ? s1 s2 Ha Hb| | | |]; subst.
    apply IHr in Ha. simpl in Hb.
    change (c :: s1 ++ s2) with ((c :: s1) ++ s2).
    now constructor.
Qed.

Lemma deriv_complete (r : re) (bs be : bool) (cs : list ascii) :
  lang r bs be cs ->
  forall c s, cs = c :: s -> lang (deriv bs c r) false be s.
Proof.
  induction 1 as [bs be|a bs be|a bs be Ha|negated ranges a bs be Ha|be|bs
                 |r1 r2 bs be s1 s2 H1 IH1 H2 IH2
                 |r1 r2 bs be s0 H1 IH1|r1 r2 bs be s0 H1 IH1
                 |r bs be|r bs be a s1 s2 H1 IH1 H2 IH2];
    intros c s Hcs; simpl; try discriminate.
  - injection Hcs as <- <-. rewrite Ascii.eqb_refl. constructor.
  - injection Hcs as <- <-.
    destruct (Ascii.eqb_spec a CStr.NUL); [contradiction|constructor].
  - injection Hcs as <- <-. rewrite Ha. constructor.
  - destruct s1 as [|a s1]; simpl in Hcs.
    + subst s2. simpl in *. rewrite andb_false_r in H1. rewrite andb_true_r in IH2.
      apply L_AltR. apply nullable_lang in H1. rewrite H1. now apply IH2.
    + injection Hcs as -> <-. simpl in *. rewrite andb_false_r in H2.
      apply L_AltL. constructor; [now apply IH1|exact H2].
  - apply L_AltL. now apply IH1.
  - apply L_AltR. now apply IH1.
  - simpl in Hcs. injection Hcs as -> <-.
    constructor; [now apply IH1|exact H2].
Qed.

Lemma deriv_lang (r : re) (bs be : bool) (c : ascii) (s : list ascii) :
  lang (deriv bs c r) false be s <-> lang r bs be (c :: s).
Proof.
  split; [apply deriv_sound|].
  intros H. now apply (deriv_complete _ _ _ _ H).
Qed.

Lemma matches_lang (r : re) (bs : bool) (s : list ascii) :
  matches bs r s = true <-> lang r bs true s.
Proof.
  revert r bs; induction s as [|c s IH]; intros r bs; simpl.
  - apply nullable_lang.
  - rewrite IH. apply deriv_lang.
Qed.

(** [regex_match] holds exactly for the candidates that are in the
    language as a whole. *)
Lemma regex_match_full (r : re) (s : string) :
  regex_match s r = true <-> full r s.
Proof. apply matches_lang. Qed.

Lemma lang_chr_inv (a : ascii) (bs be : bool) (s : list ascii) :
  lang (Chr a) bs be s -> s = [a].
Proof. now inversion 1. Qed.

End EREFacts.

(** C6. Regex full-match semantics.  For every regex filter and every
    candidate, [match] returns true if and only if the candidate as a whole
    is in the language of the extended regular expression the filter was
    compiled from; a piece of the candidate that is in the language is not
    enough.  The rule added by [add("-r:a")] matches the candidate [a] and
    does not match the candidate [cat], of which the piece [a] is in the
    language. *)
Theorem regex_filter_full_match :
  (forall (base : Filter.members) (re : ERE.re) (s : string),
      Filter.match_ (Filter.RegexFilter (C := Model) base re) s = true
      <-> ERE.full re s)
  /\ (forall text inheritable type f,
         Filter.newRegexFilter (C := Model) text inheritable type = Some f ->
         exists re, ERESyntax.compile text = Some re
                    /\ Filter.text f = text
                    /\ Filter.strategy f = FS_REGEX
                    /\ forall s, Filter.match_ f s = true <-> ERE.full re s)
  /\ (exists f,
         FilterChain.add (C := Model) "-r:a" FilterChain.new
         = (true, route true f FilterChain.new, ["Adding exclusion NAME/REGEX:a"])
         /\ Filter.strategy f = FS_REGEX
         /\ Filter.text f = "a"
         /\ Filter.match_ f "a" = true
         /\ Filter.match_ f "cat" = false
         /\ ERESyntax.compile "a" = Some (ERE.Chr "a")
         /\ ~ ERE.full (ERE.Chr "a") "cat"
         /\ ERE.somewhere (ERE.Chr "a") "cat"
         /\ fst (FilterChain.excluded (route true f FilterChain.new) ("cat", "cat") false)
            = false
         /\ fst (FilterChain.excluded (route true f FilterChain.new) ("a", "a") false)
            = true).
Proof.
  refine (conj _ (conj _ _)).
  - intros base re s. apply regex_match_full.
  - intros text inheritable type f. unfold Filter.newRegexFilter. simpl.
    destruct (ERESyntax.compile text) as [re|]; [|discriminate].
    intros H. injection H as <-. exists re.
    repeat split; try apply regex_match_full.
  - exists (Filter.RegexFilter (C := Model) (Filter.Members "a" true FT_NAME) (ERE.Chr "a")).
    repeat split.
    + intros H. apply lang_chr_inv in H. discriminate.
    + exists ["c"%char], ["a"%char], ["t"%char]. split; [reflexivity|constructor].
Qed.

(** ** The theorems at work on the model *)

Lemma load_atomic_witness :
  (fst (readLines (Collaborators := Model) broken_rule_file) = false
   \/ (exists line, In line (snd (readLines (Collaborators := Model) broken_rule_file))
                    /\ Grammar.comment line = false
                    /\ Grammar.rejected (C := Model) line))
  /\ returned (FilterChain.load (C := Model) broken_rule_file sample_chain) = false
  /\ state_after (FilterChain.load (C := Model) broken_rule_file sample_chain)
     = sample_chain.
Proof.
  assert (Hyp : fst (readLines (Collaborators := Model) broken_rule_file) = false
                \/ (exists line,
                       In line (snd (readLines (Collaborators := Model) broken_rule_file))
                       /\ Grammar.comment line = false
                       /\ Grammar.rejected (C := Model) line)).
  { right. exists "x:foo". split; [simpl; tauto|].
    split; [reflexivity|]. left. reflexivity. }
  pose proof (load_atomic (C := Model) broken_rule_file sample_chain Hyp) as [H1 [H2 _]].
  exact (conj Hyp (conj H1 H2)).
Defined.

Lemma add_token_grammar_witness :
  returned (FilterChain.add (C := Model) "-Nr:^a\.tmp$" FilterChain.new) = true
  /\ exists exclusion f,
       Grammar.sign "-" = Some exclusion
       /\ state_after (FilterChain.add (C := Model) "-Nr:^a\.tmp$" FilterChain.new)
          = route exclusion f FilterChain.new
       /\ Filter.type f = FT_NAME
       /\ Filter.inheritable f = false
       /\ Filter.strategy f = FS_REGEX
       /\ CStr.deref "-Nr:^a\.tmp$" 3 = ":"%char
       /\ Filter.text f = "^a\.tmp$".
Proof.
  exact (conj eq_refl
           (proj2 (add_token_grammar (C := Model) "-Nr:^a\.tmp$" FilterChain.new eq_refl))).
Defined.

Lemma load_replaces_witness :
  fst (readLines (Collaborators := Model) rule_file) = true
  /\ returned (FilterChain.load (C := Model) rule_file sample_chain) = true
  /\ map Filter.toString
       (FilterClass.mNames
          (FilterChain.mExclusions
             (state_after (FilterChain.load (C := Model) rule_file sample_chain))))
     = ["NAME/GLOB:*.tmp"]
  /\ map Filter.toString
       (FilterClass.mPaths
          (FilterChain.mExclusions
             (state_after (FilterChain.load (C := Model) rule_file sample_chain))))
     = ["PATH/GLOB:build/*"]
  /\ map Filter.toString
       (FilterClass.mNames
          (FilterChain.mInclusions
             (state_after (FilterChain.load (C := Model) rule_file sample_chain))))
     = ["NAME/REGEX:^keep_.*$"]
  /\ FilterClass.mPaths
       (FilterChain.mInclusions
          (state_after (FilterChain.load (C := Model) rule_file sample_chain)))
     = [].
Proof.
  assert (Hvalid : forall line,
             In line (snd (readLines (Collaborators := Model) rule_file)) ->
             Grammar.comment line = false -> ~ Grammar.rejected (C := Model) line).
  { intros line Hin Hc Hr. apply rule_none in Hr. simpl in Hin.
    destruct Hin as [<-|[<-|[<-|[<-|[]]]]]; discriminate. }
  pose proof (load_replaces (C := Model) rule_file sample_chain eq_refl Hvalid)
    as [H1 [_ [H2 _]]].
  split; [reflexivity|]. split; [exact H1|].
  rewrite H2. repeat split.
Defined.

Lemma load_comments_only_erases_witness :
  fst (readLines (Collaborators := Model) comment_file) = true
  /\ FilterChain.empty sample_chain = false
  /\ returned (FilterChain.load (C := Model) comment_file sample_chain) = true
  /\ FilterChain.empty
       (state_after (FilterChain.load (C := Model) comment_file sample_chain)) = true
  /\ fst (FilterChain.excluded
            (state_after (FilterChain.load (C := Model) comment_file sample_chain))
            ("x", "x") false) = false.
Proof.
  assert (Hcomments : forall line,
             In line (snd (readLines (Collaborators := Model) comment_file)) ->
             Grammar.comment line = true).
  { intros line Hin. simpl in Hin. destruct Hin as [<-|[<-|[]]]; reflexivity. }
  pose proof (load_comments_only_erases (C := Model) comment_file sample_chain
                eq_refl Hcomments) as [H1 [H2 H3]].
  split; [reflexivity|]. split; [reflexivity|]. split; [exact H1|].
  split; [exact H2|]. apply (H3 ("x", "x") false).
Defined.

Lemma directional_independence_witness :
  wildcardMatch (Collaborators := Model) "x" "x" = true
  /\ fst (FilterChain.excluded
            (state_after (FilterChain.add (C := Model) "+N:x"
               (state_after (FilterChain.add "-N:x" FilterChain.new))))
            ("x", "x") false) = true
  /\ fst (FilterChain.included
            (state_after (FilterChain.add (C := Model) "+N:x"
               (state_after (FilterChain.add "-N:x" FilterChain.new))))
            ("x", "x") false) = true.
Proof.
  pose proof (proj2 (proj2 (proj2 (proj2 (directional_independence (C := Model)))))
                eq_refl FilterChain.new) as [_ [_ [H1 H2]]].
  exact (conj eq_refl (conj H1 H2)).
Defined.

Lemma only_inheritable_monotone_witness :
  fst (FilterChain.excluded sample_chain ("x", "x") true) = true
  /\ fst (FilterChain.excluded sample_chain ("x", "x") false) = true.
Proof.
  exact (conj eq_refl
           (proj1 (only_inheritable_monotone (C := Model) sample_chain ("x", "x"))
              eq_refl)).
Defined.

(** ** The text of a filter, and examples from the specification *)

Section Bounds.
Context {C : Collaborators}.

Lemma token_in_bounds (text : string) (m : nat) (c : ascii) :
  c <> CStr.NUL -> CStr.deref text m = c -> S m <= String.length text.
Proof.
  intros Hc Hm. apply deref_in_bounds. now rewrite Hm.
Qed.

(** [add] reads the buffer of the line at the indices 0, 1, [strategy_pos]
    and [colon_pos] and hands the index after the colon to [isEmpty] and to
    the constructors: each index is at most the size of the line, where the
    terminator is. *)
Lemma positions_in_bounds (text : string) :
  Grammar.sign (CStr.deref text 0) <> None ->
  1 <= String.length text
  /\ Grammar.strategy_pos text <= String.length text
  /\ Grammar.colon_pos text <= String.length text
  /\ (CStr.deref text (Grammar.colon_pos text) = ":"%char ->
      S (Grammar.colon_pos text) <= String.length text).
Proof.
  intros Hsign.
  assert (H1 : 1 <= String.length text).
  { apply deref_in_bounds. intros H0. apply Hsign. now rewrite H0. }
  assert (H2 : Grammar.strategy_pos text <= String.length text).
  { unfold Grammar.strategy_pos, Grammar.axis_token.
    destruct (Ascii.eqb_spec (CStr.deref text 1) "N") as [E|_];
      [apply (token_in_bounds text 1 "N"); [discriminate|exact E]|].
    destruct (Ascii.eqb_spec (CStr.deref text 1) "n") as [E|_];
      [apply (token_in_bounds text 1 "n"); [discriminate|exact E]|].
    destruct (Ascii.eqb_spec (CStr.deref text 1) "p") as [E|_];
      [apply (token_in_bounds text 1 "p"); [discriminate|exact E]|].
    simpl. lia. }
  assert (H3 : Grammar.colon_pos text <= String.length text).
  { unfold Grammar.colon_pos, Grammar.strategy_token.
    destruct (Ascii.eqb_spec (CStr.deref text (Grammar.strategy_pos text)) "g") as [E|_].
    - apply (token_in_bounds text _ "g") in E; [cbn [snd]; lia|discriminate].
    - destruct (Ascii.eqb_spec (CStr.deref text (Grammar.strategy_pos text)) "r")
        as [E|_].
      + apply (token_in_bounds text _ "r") in E; [cbn [snd]; lia|discriminate].
      + cbn [snd]. lia. }
  repeat split; auto.
  intros Hcolon. apply (token_in_bounds text _ ":"); [discriminate|exact Hcolon].
Qed.

End Bounds.

(** X1. The text of an added filter is the C string that starts after
    the colon: all the characters after the colon when the line has no NUL
    byte, and the characters before the first NUL byte otherwise. *)
Theorem add_text_is_c_string {C : Collaborators} (text : string) (c : FilterChain.t) :
  returned (FilterChain.add text c) = true ->
  exists exclusion f,
    state_after (FilterChain.add text c) = route exclusion f c
    /\ Filter.text f = CStr.c_str (Grammar.pattern text)
    /\ CStr.nul_free (Filter.text f) = true
    /\ (CStr.nul_free text = true -> Filter.text f = Grammar.pattern text).
Proof.
  intros Hok. rewrite add_returned in Hok. rewrite add_state.
  destruct (Grammar.rule text) as [[exclusion f]|] eqn:Hrule; [|discriminate].
  exists exclusion, f.
  apply rule_sign in Hrule as [_ [_ [_ Hf]]].
  apply filter_of_fields in Hf as [_ [_ [_ Hx]]].
  split; [reflexivity|]. rewrite Hx. split; [reflexivity|].
  split; [apply c_str_is_nul_free|apply filter_text_nul_free].
Qed.

Lemma add_text_is_c_string_witness :
  returned (FilterChain.add (C := Model) line_with_nul FilterChain.new) = true
  /\ Grammar.pattern line_with_nul = ("a" ++ String CStr.NUL "b")%string
  /\ exists exclusion f,
       state_after (FilterChain.add (C := Model) line_with_nul FilterChain.new)
       = route exclusion f FilterChain.new
       /\ Filter.text f = "a".
Proof.
  destruct (add_text_is_c_string (C := Model) line_with_nul FilterChain.new eq_refl)
    as [exclusion [f [H1 [H2 _]]]].
  split; [reflexivity|]. split; [reflexivity|].
  exists exclusion, f. split; [exact H1|exact H2].
Defined.

(** A line whose pattern starts with a NUL byte is accepted, since the NUL
    byte is not whitespace, and the filter that is added has an empty
    text. *)
Example add_accepts_nul_pattern {C : Collaborators} (c : FilterChain.t) :
  Grammar.pattern line_nul_first = String CStr.NUL EmptyString
  /\ returned (FilterChain.add line_nul_first c) = true
  /\ state_after (FilterChain.add line_nul_first c)
     = route true (Filter.newGlobFilter EmptyString true FT_NAME) c
  /\ logged (FilterChain.add line_nul_first c) = ["Adding exclusion NAME/GLOB:"].
Proof.
  rewrite add_rule.
  change (Grammar.rule line_nul_first)
    with (Some (true, Filter.newGlobFilter EmptyString true FT_NAME)).
  repeat split.
Qed.

(** After [clear], [empty] holds and every query is false; clearing twice
    is clearing once. *)
Example clear_erases {C : Collaborators} (c : FilterChain.t) :
  FilterChain.empty (FilterChain.clear c) = true
  /\ FilterChain.clear (FilterChain.clear c) = FilterChain.clear c
  /\ forall p onlyInheritable,
       FilterChain.excluded (FilterChain.clear c) p onlyInheritable = (false, [])
       /\ FilterChain.included (FilterChain.clear c) p onlyInheritable = (false, []).
Proof. repeat split. Qed.

(** The empty line and the lines [x:foo], [-:] and [- :] are refused, with
    one diagnostic each, and the chain stays as it is. *)
Example grammar_rejections {C : Collaborators} (c : FilterChain.t) :
  FilterChain.add EmptyString c = (false, c, ["Syntax error parsing: "])
  /\ FilterChain.add "x:foo" c = (false, c, ["Syntax error parsing: x:foo"])
  /\ FilterChain.add "-:" c = (false, c, ["Syntax error parsing: -:"])
  /\ FilterChain.add "- :" c = (false, c, ["Syntax error parsing: - :"]).
Proof. rewrite !add_rule. repeat split. Qed.

(** Inheritance gating.  With a wildcard matcher for which the pattern
    [secret] matches the candidate [secret]: after [add("-N:secret")] the
    pair is excluded without [onlyInheritable] and not excluded with it;
    after [add("-n:secret")] or [add("-:secret")] it is excluded both
    ways. *)
Example inheritance_gating {C : Collaborators} :
  wildcardMatch "secret" "secret" = true ->
  let p : string_pair := ("secret", "secret") in
  let after text := state_after (FilterChain.add text FilterChain.new) in
  fst (FilterChain.excluded (after "-N:secret") p false) = true
  /\ fst (FilterChain.excluded (after "-N:secret") p true) = false
  /\ fst (FilterChain.excluded (after "-n:secret") p false) = true
  /\ fst (FilterChain.excluded (after "-n:secret") p true) = true
  /\ fst (FilterChain.excluded (after "-:secret") p false) = true
  /\ fst (FilterChain.excluded (after "-:secret") p true) = true.
Proof.
  intros Hx p after. subst p after. cbv beta.
  rewrite !add_state.
  change (Grammar.rule "-N:secret")
    with (Some (true, Filter.newGlobFilter "secret" false FT_NAME)).
  change (Grammar.rule "-n:secret")
    with (Some (true, Filter.newGlobFilter "secret" true FT_NAME)).
  change (Grammar.rule "-:secret")
    with (Some (true, Filter.newGlobFilter "secret" true FT_NAME)).
  unfold FilterChain.excluded. rewrite !match_fst.
  unfold candidates, applies, skipped; simpl.
  rewrite Hx. repeat split.
Qed.

Lemma inheritance_gating_witness :
  wildcardMatch (Collaborators := Model) "secret" "secret" = true
  /\ fst (FilterChain.excluded
            (state_after (FilterChain.add (C := Model) "-N:secret" FilterChain.new))
            ("secret", "secret") false) = true
  /\ fst (FilterChain.excluded
            (state_after (FilterChain.add (C := Model) "-N:secret" FilterChain.new))
            ("secret", "secret") true) = false.
Proof.
  pose proof (inheritance_gating (C := Model) eq_refl) as [H1 [H2 _]].
  exact (conj eq_refl (conj H1 H2)).
Defined.

(** Axis separation and strategies, on the model of the collaborators.
    A path rule is tested against the path and a name rule against the
    name; a glob and a regex both have to cover the whole candidate. *)
Example axis_and_strategy_examples :
  let after text := state_after (FilterChain.add (C := Model) text FilterChain.new) in
  fst (FilterChain.excluded (after "-p:build/out") ("out", "build/out") false) = true
  /\ fst (FilterChain.excluded (after "-p:build/out") ("out", "elsewhere/out") false)
     = false
  /\ fst (FilterChain.excluded (after "-N:out") ("out", "elsewhere/out") false) = true
  /\ fst (FilterChain.excluded (after "-g:*.tmp") ("a.tmp", "a.tmp") false) = true
  /\ fst (FilterChain.excluded (after "-g:*.tmp") ("a.tmpx", "a.tmpx") false) = false
  /\ fst (FilterChain.excluded (after "-r:^a\.tmp$") ("a.tmp", "a.tmp") false) = true
  /\ fst (FilterChain.excluded (after "-r:^a\.tmp$") ("a.tmpx", "a.tmpx") false) = false.
Proof. repeat split. Qed.

(** ** Further properties: [isEmpty], [add] and the queries *)

Section IsEmptyRange.

Lemma isEmpty_loop_le (k : nat) (text : string) (m w : nat) :
  isEmpty_loop k text m w <= w + k.
Proof.
  revert m w; induction k as [|k IH]; intros m w; simpl; [lia|].
  specialize (IH (S m) (w + (if (0 <? isspace (CStr.deref text m))%Z then 1 else 0))).
  destruct (0 <? isspace (CStr.deref text m))%Z; lia.
Qed.

Lemma isEmpty_loop_full (k : nat) (text : string) (m w : nat) :
  isEmpty_loop k text m w = w + k <->
  forall i, m <= i < m + k -> (0 < isspace (CStr.deref text i))%Z.
Proof.
  revert m w; induction k as [|k IH]; intros m w; simpl.
  - split; [intros _ i Hi; lia|lia].
  - pose proof (isEmpty_loop_le k text (S m)
                  (w + (if (0 <? isspace (CStr.deref text m))%Z then 1 else 0))) as Hle.
    destruct (0 <? isspace (CStr.deref text m))%Z eqn:E.
    + apply Z.ltb_lt in E.
      replace (w + S k) with (w + 1 + k) by lia. rewrite IH. split.
      * intros H i Hi. destruct (Nat.eq_dec i m) as [->|Hne]; [exact E|].
        apply H. lia.
      * intros H i Hi. apply H. lia.
    + apply Z.ltb_ge in E. split; [lia|].
      intros H. specialize (H m). lia.
Qed.

End IsEmptyRange.

(** X2. [isEmpty(m, n)], for two pointers [m <= n] into the buffer of a
    line, is true exactly when every byte of the range from [m] up to [n]
    is whitespace; it is true of the empty range [m = n]. *)
Theorem isEmpty_all_whitespace (text : string) (m n : nat) :
  m <= n ->
  n <= String.length text ->
  (isEmpty text m n = true <->
   forall i, m <= i < n -> (0 < isspace (CStr.deref text i))%Z)
  /\ isEmpty text n n = true.
Proof.
  intros Hmn Hn. unfold isEmpty. split.
  - rewrite Nat.eqb_eq.
    pose proof (isEmpty_loop_full (n - m) text m m) as H.
    replace (m + (n - m)) with n in H by lia.
    rewrite <- H. lia.
  - rewrite Nat.sub_diag. simpl. apply Nat.eqb_refl.
Qed.

Lemma isEmpty_all_whitespace_witness :
  2 <= 4 /\ 4 <= String.length "-:  x"
  /\ isEmpty "-:  x" 2 4 = true
  /\ isEmpty "-:  x" 2 5 = false.
Proof.
  pose proof (proj1 (isEmpty_all_whitespace "-:  x" 2 4 (le_S _ _ (le_S _ _ (le_n 2)))
                       (le_S _ _ (le_n 4)))) as H.
  split; [repeat constructor|]. split; [repeat constructor|].
  split; [|reflexivity].
  apply H. intros i Hi.
  destruct i as [|[|[|[|i]]]]; try lia; reflexivity.
Defined.

Section VerdictFacts.
Context {C : Collaborators}.

Lemma accepted_rule (line : string) :
  accepted line = match Grammar.rule line with Some _ => true | None => false end.
Proof. apply add_returned. Qed.

Lemma accepted_any (line : string) (c : FilterChain.t) :
  returned (FilterChain.add line c) = accepted line.
Proof. apply add_returned_any. Qed.

(** The verdict of a class with one more filter. *)
Lemma class_add_verdict (f : Filter.t) (k : FilterClass.t) (p : string_pair)
    (oi : bool) :
  fst (FilterClass.match_ (FilterClass.add f k) p oi)
  = fst (FilterClass.match_ k p oi) || applies oi (f, tested f p).
Proof.
  rewrite !match_fst. unfold candidates, FilterClass.add, tested.
  destruct (Filter.type f); cbn [FilterClass.mNames FilterClass.mPaths];
    rewrite ?map_app, !existsb_app; cbn [map existsb]; rewrite orb_false_r.
  - now rewrite orb_assoc.
  - rewrite <- !orb_assoc. f_equal. apply orb_comm.
Qed.

Lemma route_excluded (e : bool) (f : Filter.t) (c : FilterChain.t) (p : string_pair)
    (oi : bool) :
  fst (FilterChain.excluded (route e f c) p oi)
  = fst (FilterChain.excluded c p oi) || (e && applies oi (f, tested f p)).
Proof.
  unfold FilterChain.excluded, route. destruct e; cbn [FilterChain.mExclusions andb].
  - apply class_add_verdict.
  - now rewrite orb_false_r.
Qed.

Lemma route_included (e : bool) (f : Filter.t) (c : FilterChain.t) (p : string_pair)
    (oi : bool) :
  fst (FilterChain.included (route e f c) p oi)
  = fst (FilterChain.included c p oi) || (negb e && applies oi (f, tested f p)).
Proof.
  unfold FilterChain.included, route. destruct e; cbn [FilterChain.mInclusions andb negb].
  - now rewrite orb_false_r.
  - apply class_add_verdict.
Qed.

End VerdictFacts.

(** X3. How [add] composes with the queries.  When [add] accepts a line,
    the verdict of [excluded] afterwards is the verdict before, or the new
    rule applying to the pair, for a line with the sign [-]; it is the verdict
    before for a line with the sign [+]; and the other way round for
    [included].  The new rule applies when the gate does not skip it and its
    filter matches the name of the pair (name rule) or its path (path rule).
    So a pair that was excluded or included stays so after any [add]. *)
Theorem add_extends_verdicts {C : Collaborators} (text : string) (c : FilterChain.t) :
  returned (FilterChain.add text c) = true ->
  exists exclusion f,
    Grammar.sign (CStr.deref text 0) = Some exclusion
    /\ state_after (FilterChain.add text c) = route exclusion f c
    /\ forall p onlyInheritable,
         let hit := negb (onlyInheritable && negb (Filter.inheritable f))
                    && Filter.match_ f (match Filter.type f with
                                        | FT_NAME => fst p
                                        | FT_PATH => snd p
                                        end) in
         fst (FilterChain.excluded (state_after (FilterChain.add text c)) p onlyInheritable)
         = fst (FilterChain.excluded c p onlyInheritable) || (exclusion && hit)
         /\ fst (FilterChain.included (state_after (FilterChain.add text c)) p
                   onlyInheritable)
            = fst (FilterChain.included c p onlyInheritable) || (negb exclusion && hit)
         /\ (fst (FilterChain.excluded c p onlyInheritable) = true ->
             fst (FilterChain.excluded (state_after (FilterChain.add text c)) p
                    onlyInheritable) = true)
         /\ (fst (FilterChain.included c p onlyInheritable) = true ->
             fst (FilterChain.included (state_after (FilterChain.add text c)) p
                    onlyInheritable) = true).
Proof.
  intros Hok. rewrite add_returned in Hok. rewrite add_state.
  destruct (Grammar.rule text) as [[e f]|] eqn:Hrule; [|discriminate].
  exists e, f. apply rule_sign in Hrule as [Hsign _].
  split; [exact Hsign|]. split; [reflexivity|].
  intros p oi hit. subst hit.
  rewrite route_excluded, route_included.
  unfold applies, skipped, tested; cbn [fst snd].
  repeat split; intros ->; reflexivity.
Qed.

Lemma add_extends_verdicts_witness :
  returned (FilterChain.add (C := Model) "-n:*.tmp" sample_chain) = true
  /\ fst (FilterChain.excluded sample_chain ("a.tmp", "d/a.tmp") true) = false
  /\ fst (FilterChain.excluded
            (state_after (FilterChain.add (C := Model) "-n:*.tmp" sample_chain))
            ("a.tmp", "d/a.tmp") true) = true
  /\ exists exclusion f,
       state_after (FilterChain.add (C := Model) "-n:*.tmp" sample_chain)
       = route exclusion f sample_chain.
Proof.
  destruct (add_extends_verdicts (C := Model) "-n:*.tmp" sample_chain eq_refl)
    as [e [f [_ [H _]]]].
  split; [reflexivity|]. split; [reflexivity|]. split; [reflexivity|].
  exists e, f. exact H.
Defined.

(** X4. The order of two calls of [add] is irrelevant to the verdicts, and a
    rule added twice counts once: for any two lines and any chain, adding
    them in either order gives the same answers of [excluded] and [included]
    for every pair and flag, and adding a line again changes no answer. *)
Theorem add_order_irrelevant {C : Collaborators} (line1 line2 : string)
    (c : FilterChain.t) (p : string_pair) (onlyInheritable : bool) :
  let after1 := state_after (FilterChain.add line1 c) in
  let after2 := state_after (FilterChain.add line2 c) in
  let after12 := state_after (FilterChain.add line2 after1) in
  let after21 := state_after (FilterChain.add line1 after2) in
  let after11 := state_after (FilterChain.add line1 after1) in
  fst (FilterChain.excluded after12 p onlyInheritable)
  = fst (FilterChain.excluded after21 p onlyInheritable)
  /\ fst (FilterChain.included after12 p onlyInheritable)
     = fst (FilterChain.included after21 p onlyInheritable)
  /\ fst (FilterChain.excluded after11 p onlyInheritable)
     = fst (FilterChain.excluded after1 p onlyInheritable)
  /\ fst (FilterChain.included after11 p onlyInheritable)
     = fst (FilterChain.included after1 p onlyInheritable).
Proof.
  cbv zeta. rewrite !add_state.
  destruct (Grammar.rule line1) as [[e1 f1]|], (Grammar.rule line2) as [[e2 f2]|];
    rewrite ?route_excluded, ?route_included; repeat split;
    try reflexivity;
    try (rewrite <- !orb_assoc; f_equal; apply orb_comm);
    try (rewrite <- orb_assoc, orb_diag; reflexivity).
Qed.

(** ** Further properties: the shape of a line, the gate, rendering *)

Section ShapeFacts.
Context {C : Collaborators}.

Lemma axis_token_consumed (a : ascii) : snd (Grammar.axis_token a) <= 1.
Proof.
  unfold Grammar.axis_token.
  destruct (Ascii.eqb a "N"), (Ascii.eqb a "n"), (Ascii.eqb a "p"); simpl; lia.
Qed.

Lemma strategy_token_consumed (s : ascii) : snd (Grammar.strategy_token s) <= 1.
Proof.
  unfold Grammar.strategy_token.
  destruct (Ascii.eqb s "g"), (Ascii.eqb s "r"); simpl; lia.
Qed.

Lemma colon_pos_range (text : string) : 1 <= Grammar.colon_pos text <= 3.
Proof.
  unfold Grammar.colon_pos, Grammar.strategy_pos.
  pose proof (axis_token_consumed (CStr.deref text 1)).
  pose proof (strategy_token_consumed
                (CStr.deref text (1 + snd (Grammar.axis_token (CStr.deref text 1))))).
  lia.
Qed.

Lemma blank_empty (s : string) : String.length s = 0 -> Grammar.blank s = true.
Proof. destruct s; [reflexivity|discriminate]. Qed.

(** The only axis token that clears the inheritable flag is [N]. *)
Lemma axis_token_inheritable (a : ascii) :
  snd (fst (Grammar.axis_token a)) = false <-> a = "N"%char.
Proof.
  unfold Grammar.axis_token.
  destruct (Ascii.eqb_spec a "N") as [->|Hn]; simpl; [tauto|].
  destruct (Ascii.eqb a "n"), (Ascii.eqb a "p"); simpl;
    split; congruence.
Qed.

Lemma axis_token_path (a : ascii) :
  fst (fst (Grammar.axis_token a)) = FT_PATH <-> a = "p"%char.
Proof.
  unfold Grammar.axis_token.
  destruct (Ascii.eqb_spec a "N") as [->|Hn]; simpl; [split; discriminate|].
  destruct (Ascii.eqb_spec a "n") as [->|Hn']; simpl; [split; discriminate|].
  destruct (Ascii.eqb_spec a "p") as [->|Hp]; simpl; [tauto|].
  split; [discriminate|congruence].
Qed.

End ShapeFacts.

(** X5. The shape of a line that [add] accepts.  It starts with [-] or [+],
    its colon is at index 1, 2 or 3, strictly inside the line, and at least
    one byte follows the colon, so the line has three bytes or more; every
    index at which [add] reads the buffer is at most the size of the line,
    where the terminator is. *)
Theorem accepted_line_shape {C : Collaborators} (text : string) (c : FilterChain.t) :
  returned (FilterChain.add text c) = true ->
  let axis := Grammar.axis_token (CStr.deref text 1) in
  let strategy := Grammar.strategy_token (CStr.deref text (1 + snd axis)) in
  let colon := 1 + snd axis + snd strategy in
  (CStr.deref text 0 = "-"%char \/ CStr.deref text 0 = "+"%char)
  /\ 1 <= colon <= 3
  /\ CStr.deref text colon = ":"%char
  /\ colon + 2 <= String.length text
  /\ 3 <= String.length text
  /\ 1 + snd axis <= String.length text.
Proof.
  intros Hok axis strategy colon.
  rewrite add_returned in Hok.
  destruct (Grammar.rule text) as [[e f]|] eqn:Hrule; [|discriminate].
  apply rule_sign in Hrule as [Hsign [Hcolon [Hblank _]]].
  pose proof (colon_pos_range text) as Hrange.
  change (Grammar.colon_pos text) with colon in *.
  assert (Hin : S colon <= String.length text).
  { apply deref_in_bounds. rewrite Hcolon. discriminate. }
  assert (Hpat : colon + 2 <= String.length text).
  { destruct (Nat.le_gt_cases (colon + 2) (String.length text)) as [H|H]; [exact H|].
    exfalso. unfold Grammar.pattern in Hblank.
    change (Grammar.colon_pos text) with colon in Hblank.
    rewrite blank_empty in Hblank; [discriminate|].
    rewrite from_length. lia. }
  apply sign_char in Hsign.
  repeat split; try lia; try exact Hcolon.
  destruct e; [left|right]; exact Hsign.
Qed.

Lemma accepted_line_shape_witness :
  returned (FilterChain.add (C := Model) "+pr:d/.*" FilterChain.new) = true
  /\ CStr.deref "+pr:d/.*" 3 = ":"%char
  /\ 3 + 2 <= String.length "+pr:d/.*".
Proof.
  destruct (accepted_line_shape (C := Model) "+pr:d/.*" FilterChain.new eq_refl)
    as [_ [_ [H1 [H2 _]]]].
  exact (conj eq_refl (conj H1 H2)).
Defined.

(** X6. The inheritance gate.  With [onlyInheritable] set, a class all of
    whose rules are inheritable answers and logs exactly as without the
    flag, and a class none of whose rules is inheritable matches nothing.
    The filter of an accepted line is not inheritable exactly when the
    character after the sign is [N], and it is a path rule exactly when that
    character is [p]: no line gives a path rule that is not inheritable. *)
Theorem inheritance_gate {C : Collaborators} :
  (forall k p,
      (forall f, In f (FilterClass.mPaths k ++ FilterClass.mNames k) ->
                 Filter.inheritable f = true) ->
      FilterClass.match_ k p true = FilterClass.match_ k p false)
  /\ (forall k p,
         (forall f, In f (FilterClass.mPaths k ++ FilterClass.mNames k) ->
                    Filter.inheritable f = false) ->
         fst (FilterClass.match_ k p true) = false)
  /\ (forall text c,
         returned (FilterChain.add text c) = true ->
         exists exclusion f,
           state_after (FilterChain.add text c) = route exclusion f c
           /\ (Filter.inheritable f = false <-> CStr.deref text 1 = "N"%char)
           /\ (Filter.type f = FT_PATH <-> CStr.deref text 1 = "p"%char)
           /\ (Filter.type f = FT_PATH -> Filter.inheritable f = true)).
Proof.
  refine (conj _ (conj _ _)).
  - intros k p Hall.
    assert (Hloop : forall fs s,
               (forall f, In f fs -> Filter.inheritable f = true) ->
               FilterClass.match_loop fs s true = FilterClass.match_loop fs s false).
    { induction fs as [|f fs IH]; intros s Hfs; [reflexivity|].
      cbn [FilterClass.match_loop]. rewrite (Hfs f (or_introl eq_refl)).
      cbn [negb andb]. rewrite IH; [reflexivity|].
      intros g Hg. apply Hfs. now right. }
    unfold FilterClass.match_.
    rewrite !Hloop; [reflexivity| |];
      intros f Hf; apply Hall, in_app_iff; auto.
  - intros k p Hnone. rewrite match_fst.
    destruct (existsb (applies true) (candidates k p)) eqn:E; [|reflexivity].
    apply existsb_exists in E as [[f s] [Hin Happ]].
    apply candidates_in in Hin. cbn [fst snd] in Hin.
    assert (Hf : Filter.inheritable f = false).
    { apply Hnone, in_app_iff. tauto. }
    unfold applies, skipped in Happ. cbn [fst snd] in Happ.
    rewrite Hf in Happ. discriminate.
  - intros text c Hok.
    rewrite add_returned in Hok. rewrite add_state.
    destruct (Grammar.rule text) as [[e f]|] eqn:Hrule; [|discriminate].
    exists e, f. split; [reflexivity|].
    apply rule_sign in Hrule as [_ [_ [_ Hf]]].
    apply filter_of_fields in Hf as [Ht [Hi _]].
    unfold Grammar.axis, Grammar.inheritable in *.
    rewrite Ht, Hi. rewrite axis_token_inheritable, axis_token_path.
    repeat split; try tauto.
    intros ->. reflexivity.
Qed.

(** ** Further properties: rendering, emptiness, the invariant of a chain *)

(** X7. The rendering of a filter for the diagnostics is unambiguous: two
    filters that render to the same string have the same axis, the same
    strategy and the same text, and the renderings of the two axes and of
    the two strategies are distinct. *)
Theorem toString_injective {C : Collaborators} (f g : Filter.t) :
  (Filter.toString f = Filter.toString g ->
   Filter.type f = Filter.type g
   /\ Filter.strategy f = Filter.strategy g
   /\ Filter.text f = Filter.text g)
  /\ (forall t t', FilterType_toString t = FilterType_toString t' -> t = t')
  /\ (forall s s', FilterStrategy_toString s = FilterStrategy_toString s' -> s = s').
Proof.
  refine (conj _ (conj _ _)).
  - unfold Filter.toString.
    generalize (Filter.type f), (Filter.strategy f), (Filter.text f),
      (Filter.type g), (Filter.strategy g), (Filter.text g).
    intros t1 s1 x1 t2 s2 x2 H.
    destruct t1, t2, s1, s2; simpl in H; try discriminate;
      injection H as ->; auto.
  - intros [] []; simpl; intros H; try reflexivity; discriminate.
  - intros [] []; simpl; intros H; try reflexivity; discriminate.
Qed.

Lemma toString_injective_witness :
  Filter.toString (Filter.newGlobFilter (C := Model) "a:b" true FT_NAME)
  = Filter.toString (Filter.newGlobFilter (C := Model) "a:b" false FT_NAME)
  /\ Filter.text (Filter.newGlobFilter (C := Model) "a:b" true FT_NAME)
     = Filter.text (Filter.newGlobFilter (C := Model) "a:b" false FT_NAME).
Proof.
  exact (conj eq_refl
           (proj2 (proj2
              (proj1 (toString_injective
                        (Filter.newGlobFilter (C := Model) "a:b" true FT_NAME)
                        (Filter.newGlobFilter (C := Model) "a:b" false FT_NAME))
                 eq_refl)))).
Defined.

Section InvariantFacts.
Context {C : Collaborators}.

Lemma axis_path_inheritable (text : string) :
  Grammar.axis text = FT_PATH -> Grammar.inheritable text = true.
Proof.
  unfold Grammar.axis, Grammar.inheritable, Grammar.axis_token.
  destruct (Ascii.eqb (CStr.deref text 1) "N"); simpl; [discriminate|].
  destruct (Ascii.eqb (CStr.deref text 1) "n"); simpl; [reflexivity|].
  destruct (Ascii.eqb (CStr.deref text 1) "p"); reflexivity.
Qed.

Lemma filter_of_wf (text : string) (f : Filter.t) :
  Grammar.filter_of text = Some f -> wf_filter f.
Proof.
  unfold Grammar.filter_of, Filter.newRegexFilter, Filter.newGlobFilter, wf_filter.
  pose proof (axis_path_inheritable text) as Hpath.
  destruct (Grammar.strategy text).
  - intros H. injection H as <-. unfold Filter.text, Filter.type, Filter.inheritable.
    cbn. split; [apply c_str_is_nul_free|]. split; [exact Hpath|exact I].
  - destruct (regex_compile (Grammar.filter_text text)) as [re|] eqn:E; [|discriminate].
    intros H. injection H as <-. unfold Filter.text, Filter.type, Filter.inheritable.
    cbn. split; [apply c_str_is_nul_free|]. split; [exact Hpath|exact E].
Qed.

Lemma wf_class_add (f : Filter.t) (k : FilterClass.t) :
  wf_filter f -> wf_class k -> wf_class (FilterClass.add f k).
Proof.
  intros Hf [Hn Hp]. unfold wf_class, FilterClass.add.
  destruct (Filter.type f) eqn:Et; cbn [FilterClass.mNames FilterClass.mPaths];
    split; auto; apply Forall_app; split; auto.
Qed.

Lemma wf_route (e : bool) (f : Filter.t) (c : FilterChain.t) :
  wf_filter f -> wf_chain c -> wf_chain (route e f c).
Proof.
  intros Hf [He Hi]. unfold wf_chain, route.
  destruct e; cbn [FilterChain.mExclusions FilterChain.mInclusions];
    split; auto using wf_class_add.
Qed.

Lemma wf_new : wf_chain FilterChain.new.
Proof. repeat split; constructor. Qed.

Lemma wf_add (text : string) (c : FilterChain.t) :
  wf_chain c -> wf_chain (state_after (FilterChain.add text c)).
Proof.
  intros Hc. rewrite add_state.
  destruct (Grammar.rule text) as [[e f]|] eqn:Hrule; [|exact Hc].
  apply rule_sign in Hrule as [_ [_ [_ Hf]]].
  apply wf_route; [now apply (filter_of_wf text)|exact Hc].
Qed.

Lemma wf_load_loop (lines : list string) (e i : FilterClass.t) (c : FilterChain.t) :
  wf_chain (FilterChain.Make e i) -> wf_chain c ->
  wf_chain (state_after (FilterChain.load_loop lines e i c)).
Proof.
  intros Hsaved. revert c; induction lines as [|line lines IH]; intros c Hc;
    [exact Hc|].
  cbn [FilterChain.load_loop].
  destruct (Ascii.eqb (CStr.deref line 0) "#"); [now apply IH|].
  pose proof (wf_add line c Hc) as Hadd.
  destruct (FilterChain.add line c) as [[ok c'] l]. cbn in Hadd.
  destruct ok; cbn [negb]; [|exact Hsaved].
  specialize (IH c' Hadd).
  destruct (FilterChain.load_loop lines e i c') as [[r c''] l']. exact IH.
Qed.

Lemma empty_new (c : FilterChain.t) :
  FilterChain.empty c = true <-> c = FilterChain.new.
Proof.
  destruct c as [[en ep] [inn ip]]. unfold FilterChain.empty, FilterClass.empty.
  cbn. split.
  - destruct en, ep, inn, ip; try discriminate. reflexivity.
  - intros H. injection H as -> -> -> ->. reflexivity.
Qed.

Lemma class_add_not_empty (f : Filter.t) (k : FilterClass.t) :
  FilterClass.empty (FilterClass.add f k) = false.
Proof.
  unfold FilterClass.empty, FilterClass.add.
  destruct (Filter.type f); cbn [FilterClass.mNames FilterClass.mPaths].
  - destruct (FilterClass.mNames k); reflexivity.
  - destruct (FilterClass.mPaths k); cbn; [apply andb_false_r|apply andb_false_r].
Qed.

End InvariantFacts.

(** X8. The invariant of a chain.  Of every filter stored in a chain it
    holds that its text has no NUL byte, that it is inheritable when it is a
    path rule, that it lies in the list of its axis, and that a regex filter
    holds the compiled form of its own text.  The new chain has this
    property and [add], [clear] and both overloads of [load] keep it,
    whether they succeed or fail. *)
Theorem chain_invariant {C : Collaborators} :
  wf_chain FilterChain.new
  /\ (forall c, wf_chain c -> wf_chain (FilterChain.clear c))
  /\ (forall c text, wf_chain c -> wf_chain (state_after (FilterChain.add text c)))
  /\ (forall c isAccess, wf_chain c ->
                         wf_chain (state_after (FilterChain.load isAccess c)))
  /\ (forall (FileAccess : Type) (FileInputStream : FileAccess -> InputStreamAccess)
             c ifAccess,
         wf_chain c ->
         wf_chain (state_after (load_file FileInputStream ifAccess c)))
  /\ (forall c f,
         wf_chain c ->
         (In f (FilterClass.mPaths (FilterChain.mExclusions c))
          \/ In f (FilterClass.mPaths (FilterChain.mInclusions c)) ->
          Filter.type f = FT_PATH /\ Filter.inheritable f = true)
         /\ (In f (FilterClass.mNames (FilterChain.mExclusions c))
             \/ In f (FilterClass.mNames (FilterChain.mInclusions c)) ->
             Filter.type f = FT_NAME)).
Proof.
  assert (Hload : forall c isAccess, wf_chain c ->
                    wf_chain (state_after (FilterChain.load isAccess c))).
  { intros c isAccess Hc. unfold FilterChain.load.
    destruct (readLines isAccess) as [ok filters].
    destruct ok; cbn [negb]; [|exact Hc].
    cbv zeta. apply wf_load_loop; [|exact wf_new].
    destruct c as [e i]. exact Hc. }
  refine (conj wf_new (conj _ (conj _ (conj Hload (conj _ _))))).
  - intros c _. exact wf_new.
  - intros c text. apply wf_add.
  - intros FileAccess FileInputStream c ifAccess. apply Hload.
  - intros c f [[Hen Hep] [Hin Hip]]. rewrite Forall_forall in *. split.
    + intros [H|H]; [apply Hep in H|apply Hip in H];
        destruct H as [[_ [Hpath _]] Ht]; auto.
    + intros [H|H]; [apply Hen in H|apply Hin in H]; apply H.
Qed.

(** X9. Emptiness.  [empty] holds exactly of the chain without rules, the
    new chain; for such a chain both queries are false and log nothing for
    every pair and flag; [clear] always gives it; and after an [add] that
    returns true [empty] is false. *)
Theorem empty_characterised {C : Collaborators} (c : FilterChain.t) :
  (FilterChain.empty c = true <-> c = FilterChain.new)
  /\ (FilterChain.empty c = true ->
      forall p onlyInheritable,
        FilterChain.excluded c p onlyInheritable = (false, [])
        /\ FilterChain.included c p onlyInheritable = (false, []))
  /\ FilterChain.empty (FilterChain.clear c) = true
  /\ (forall text,
         returned (FilterChain.add text c) = true ->
         FilterChain.empty (state_after (FilterChain.add text c)) = false).
Proof.
  refine (conj (empty_new c) (conj _ (conj eq_refl _))).
  - intros H. apply empty_new in H. subst c. intros p oi. split; reflexivity.
  - intros text Hok. rewrite add_returned in Hok. rewrite add_state.
    destruct (Grammar.rule text) as [[e f]|]; [|discriminate].
    unfold FilterChain.empty, route.
    destruct e; cbn [FilterChain.mExclusions FilterChain.mInclusions];
      rewrite class_add_not_empty; [reflexivity|apply andb_false_r].
Qed.

(** ** Further properties: the reload *)

Section ReloadFacts.
Context {C : Collaborators}.

Lemma all_accepted (lines : list string) :
  forallb accepted (parsed_lines lines) = true <->
  (forall line, In line lines -> Grammar.comment line = false ->
                Grammar.rule line <> None).
Proof.
  unfold parsed_lines. rewrite forallb_forall. split.
  - intros H line Hin Hc Hr.
    assert (Hf : In line (filter (fun l => negb (Grammar.comment l)) lines)).
    { apply filter_In. now rewrite Hc. }
    apply H in Hf. rewrite accepted_rule, Hr in Hf. discriminate.
  - intros H line Hin. apply filter_In in Hin as [Hin Hc].
    apply negb_true_iff in Hc. rewrite accepted_rule.
    specialize (H line Hin Hc). now destruct (Grammar.rule line).
Qed.

Lemma some_refused (lines : list string) :
  forallb accepted (parsed_lines lines) = false ->
  exists line, In line lines /\ Grammar.comment line = false
               /\ Grammar.rule line = None.
Proof.
  unfold parsed_lines. induction lines as [|line lines IH]; [discriminate|].
  cbn [filter]. destruct (Grammar.comment line) eqn:Ec; cbn [negb].
  - intros H. destruct (IH H) as [l [Hin Hl]]. exists l. split; [now right|exact Hl].
  - cbn [forallb]. rewrite accepted_rule.
    destruct (Grammar.rule line) eqn:Hr.
    + intros H. destruct (IH H) as [l [Hin Hl]]. exists l. split; [now right|exact Hl].
    + intros _. exists line. split; [now left|auto].
Qed.

(** When every parsed line is accepted, adding the lines one by one is
    routing their rules. *)
Lemma add_all_route_all (lines : list string) (c : FilterChain.t) :
  forallb accepted (parsed_lines lines) = true ->
  add_all (parsed_lines lines) c = route_all (rules_of lines) c.
Proof.
  unfold add_all, route_all, parsed_lines.
  revert c; induction lines as [|line lines IH]; intros c; [reflexivity|].
  rewrite rules_of_cons. cbn [filter].
  destruct (Grammar.comment line); cbn [negb]; [apply IH|].
  cbn [forallb fold_left]. rewrite accepted_rule, add_state.
  destruct (Grammar.rule line) as [[e f]|]; [|discriminate].
  cbn [andb fold_left fst snd]. apply IH.
Qed.

(** The diagnostics of [add] depend on the line alone. *)
Lemma add_logged_any (line : string) (c c' : FilterChain.t) :
  logged (FilterChain.add line c) = logged (FilterChain.add line c').
Proof. rewrite !add_rule. now destruct (Grammar.rule line) as [[e f]|]. Qed.

(** The loop up to the first line that is refused. *)
Lemma load_loop_first_refused (pre post : list string) (bad : string)
    (e i : FilterClass.t) (c : FilterChain.t) :
  forallb accepted (parsed_lines pre) = true ->
  Grammar.comment bad = false ->
  accepted bad = false ->
  logged (FilterChain.load_loop (pre ++ bad :: post) e i c)
  = flat_map (fun line => logged (FilterChain.add line FilterChain.new))
             (parsed_lines pre)
    ++ [("Syntax error parsing: " ++ bad)%string].
Proof.
  intros Hpre Hc Hbad. rewrite accepted_rule in Hbad.
  revert c Hpre; induction pre as [|line pre IH]; intros c Hpre.
  - cbn [app FilterChain.load_loop parsed_lines filter flat_map].
    change (Ascii.eqb (CStr.deref bad 0) "#") with (Grammar.comment bad).
    rewrite Hc, add_rule.
    destruct (Grammar.rule bad); [discriminate|reflexivity].
  - cbn [app FilterChain.load_loop]. unfold parsed_lines in *. cbn [filter] in *.
    change (Ascii.eqb (CStr.deref line 0) "#") with (Grammar.comment line).
    destruct (Grammar.comment line); cbn [negb] in *; [now apply IH|].
    cbn [forallb flat_map] in *. apply andb_true_iff in Hpre as [Hline Hpre].
    rewrite (add_logged_any line FilterChain.new c).
    rewrite accepted_rule in Hline. rewrite add_rule.
    destruct (Grammar.rule line) as [[ex f]|]; [|discriminate].
    cbn [negb]. specialize (IH (route ex f c) Hpre).
    destruct (FilterChain.load_loop (pre ++ bad :: post) e i (route ex f c))
      as [[r c''] l'].
    unfold logged in *. cbn [snd] in *. now rewrite IH.
Qed.

Lemma filter_permutation {A : Type} (f : A -> bool) (l l' : list A) :
  Permutation l l' -> Permutation (filter f l) (filter f l').
Proof.
  induction 1 as [|x l l' _ IH|x y l|l l' l'' _ IH1 _ IH2]; cbn [filter].
  - constructor.
  - destruct (f x); [now constructor|exact IH].
  - destruct (f x), (f y); try apply Permutation_refl. apply perm_swap.
  - now apply Permutation_trans with (filter f l').
Qed.

Lemma rules_of_permutation (lines lines' : list string) :
  Permutation lines lines' -> Permutation (rules_of lines) (rules_of lines').
Proof.
  intros H. unfold rules_of.
  apply Permutation_flat_map, filter_permutation, H.
Qed.

Lemma select_permutation (e : bool) (t : FilterType) (rs rs' : list (bool * Filter.t)) :
  Permutation rs rs' -> Permutation (select e t rs) (select e t rs').
Proof.
  intros H. unfold select. apply Permutation_map, filter_permutation, H.
Qed.

Lemma chain_of_verdicts (rs rs' : list (bool * Filter.t)) (p : string_pair)
    (oi : bool) :
  Permutation rs rs' ->
  fst (FilterChain.excluded (chain_of rs) p oi)
  = fst (FilterChain.excluded (chain_of rs') p oi)
  /\ fst (FilterChain.included (chain_of rs) p oi)
     = fst (FilterChain.included (chain_of rs') p oi).
Proof.
  intros H. unfold FilterChain.excluded, FilterChain.included, chain_of.
  cbn [FilterChain.mExclusions FilterChain.mInclusions].
  rewrite !match_fst. unfold candidates.
  cbn [FilterClass.mNames FilterClass.mPaths].
  split; apply existsb_permutation, Permutation_app; apply Permutation_map;
    now apply select_permutation.
Qed.

(** The outcome of [load] in full. *)
Lemma load_outcome (isAccess : InputStreamAccess) (c : FilterChain.t) :
  let lines := snd (readLines isAccess) in
  if fst (readLines isAccess) && forallb accepted (parsed_lines lines)
  then returned (FilterChain.load isAccess c) = true
       /\ state_after (FilterChain.load isAccess c) = chain_of (rules_of lines)
       /\ state_after (FilterChain.load isAccess c)
          = add_all (parsed_lines lines) (FilterChain.clear c)
  else returned (FilterChain.load isAccess c) = false
       /\ state_after (FilterChain.load isAccess c) = c.
Proof.
  cbv zeta. unfold FilterChain.load.
  destruct (readLines isAccess) as [ok lines]. cbn [fst snd].
  destruct ok; cbn [negb andb]; [|split; reflexivity].
  cbv zeta.
  destruct (forallb accepted (parsed_lines lines)) eqn:Hall.
  - rewrite load_loop_ok by now apply all_accepted.
    unfold returned, state_after. cbn [fst snd].
    split; [reflexivity|]. split; [apply route_all_new|].
    symmetry. apply (add_all_route_all lines _ Hall).
  - apply some_refused in Hall.
    pose proof (load_loop_fail lines (FilterChain.mExclusions c)
                  (FilterChain.mInclusions c)
                  (FilterChain.clear (FilterChain.Make FilterClass.new FilterClass.new))
                  Hall) as Hfail.
    now rewrite chain_eta in Hfail.
Qed.

End ReloadFacts.

(** X10. All or nothing.  [load] returns true exactly when the lines are
    read and [add] accepts every line that is not a comment.  It then leaves
    the chain that [clear] followed by [add] of each such line, in order,
    builds; otherwise it leaves the chain as it was.  The overload that takes
    a file behaves as [load] on the stream of the file. *)
Theorem load_all_or_nothing {C : Collaborators} (isAccess : InputStreamAccess)
    (c : FilterChain.t) :
  let lines := snd (readLines isAccess) in
  (returned (FilterChain.load isAccess c) = true <->
   fst (readLines isAccess) = true
   /\ forall line, In line lines -> Grammar.comment line = false ->
                   forall c', returned (FilterChain.add line c') = true)
  /\ (returned (FilterChain.load isAccess c) = true ->
      state_after (FilterChain.load isAccess c)
      = add_all (parsed_lines lines) (FilterChain.clear c))
  /\ (returned (FilterChain.load isAccess c) = false ->
      state_after (FilterChain.load isAccess c) = c)
  /\ (forall (FileAccess : Type) (FileInputStream : FileAccess -> InputStreamAccess)
             (ifAccess : FileAccess),
         FileInputStream ifAccess = isAccess ->
         load_file FileInputStream ifAccess c = FilterChain.load isAccess c).
Proof.
  cbv zeta. pose proof (load_outcome isAccess c) as H. cbv zeta in H.
  assert (Hiff : forallb accepted (parsed_lines (snd (readLines isAccess))) = true <->
                 forall line, In line (snd (readLines isAccess)) ->
                              Grammar.comment line = false ->
                              forall c', returned (FilterChain.add line c') = true).
  { rewrite all_accepted. split.
    - intros Hall line Hin Hc c'. rewrite add_returned.
      specialize (Hall line Hin Hc). now destruct (Grammar.rule line).
    - intros Hall line Hin Hc Hr.
      specialize (Hall line Hin Hc FilterChain.new). rewrite add_returned, Hr in Hall.
      discriminate. }
  destruct (fst (readLines isAccess)) eqn:Hread; cbn [andb] in H.
  - destruct (forallb accepted (parsed_lines (snd (readLines isAccess)))) eqn:Hall.
    + destruct H as [Hret [_ Hstate]]. rewrite Hret.
      refine (conj _ (conj _ (conj _ _))).
      * split; [intros _; split; [reflexivity|now apply Hiff]|reflexivity].
      * intros _. exact Hstate.
      * discriminate.
      * intros FA FIS f <-. reflexivity.
    + destruct H as [Hret Hstate]. rewrite Hret.
      refine (conj _ (conj _ (conj _ _))).
      * split; [discriminate|]. intros [_ Hacc]. apply Hiff in Hacc. discriminate.
      * discriminate.
      * intros _. exact Hstate.
      * intros FA FIS f <-. reflexivity.
  - destruct H as [Hret Hstate]. rewrite Hret.
    refine (conj _ (conj _ (conj _ _))).
    + split; [discriminate|]. intros [Hf _]. discriminate.
    + discriminate.
    + intros _. exact Hstate.
    + intros FA FIS f <-. reflexivity.
Qed.

(** X11. The diagnostics of a failed [load].  When the lines are read and a
    line that is not a comment is refused after lines that are all comments
    or accepted, the log of [load] is the log of [add] for each parsed line
    before it, in order, followed by the syntax error of the refused line:
    the lines after the first refused one are not parsed. *)
Theorem load_stops_at_first_refused {C : Collaborators} (isAccess : InputStreamAccess)
    (c : FilterChain.t) (pre post : list string) (bad : string) :
  readLines isAccess = (true, pre ++ bad :: post) ->
  (forall line, In line pre -> Grammar.comment line = false ->
                returned (FilterChain.add line FilterChain.new) = true) ->
  Grammar.comment bad = false ->
  returned (FilterChain.add bad FilterChain.new) = false ->
  FilterChain.load isAccess c
  = (false, c,
     flat_map (fun line => logged (FilterChain.add line FilterChain.new))
              (parsed_lines pre)
     ++ [("Syntax error parsing: " ++ bad)%string]).
Proof.
  intros Hread Hpre Hc Hbad.
  assert (Hall : forallb accepted (parsed_lines pre) = true).
  { apply forallb_forall. intros line Hin. unfold parsed_lines in Hin.
    apply filter_In in Hin as [Hin Hcl]. apply negb_true_iff in Hcl.
    now apply Hpre. }
  pose proof (load_outcome isAccess c) as H. cbv zeta in H.
  assert (Hlog : logged (FilterChain.load isAccess c)
                 = flat_map (fun line => logged (FilterChain.add line FilterChain.new))
                            (parsed_lines pre)
                   ++ [("Syntax error parsing: " ++ bad)%string]).
  { unfold FilterChain.load. rewrite Hread. cbn [negb]. cbv zeta.
    now apply load_loop_first_refused. }
  rewrite Hread in H. cbn [fst snd andb] in H.
  assert (Hnot : forallb accepted (parsed_lines (pre ++ bad :: post)) = false).
  { unfold parsed_lines. rewrite filter_app, forallb_app. cbn [filter].
    rewrite Hc. cbn [negb forallb]. unfold accepted at 2. rewrite Hbad.
    apply andb_false_r. }
  rewrite Hnot in H. destruct H as [Hret Hstate].
  unfold returned, state_after, logged in Hret, Hstate, Hlog.
  destruct (FilterChain.load isAccess c) as [[r c'] l].
  cbn [fst snd] in Hret, Hstate, Hlog. now subst r c' l.
Qed.

Lemma load_stops_at_first_refused_witness :
  FilterChain.load (C := Model) (Some ["# rules"; "-N:*.tmp"; "x:foo"; "-N:*.bak"])
    sample_chain
  = (false, sample_chain,
     ["Adding exclusion NAME/GLOB:*.tmp"; "Syntax error parsing: x:foo"]).
Proof.
  apply (load_stops_at_first_refused (C := Model)
           (Some ["# rules"; "-N:*.tmp"; "x:foo"; "-N:*.bak"]) sample_chain
           ["# rules"; "-N:*.tmp"] ["-N:*.bak"] "x:foo").
  - reflexivity.
  - intros line Hin Hc. cbn [In] in Hin.
    destruct Hin as [<-|[<-|[]]]; [discriminate|reflexivity].
  - reflexivity.
  - reflexivity.
Defined.

(** X12. The order of the lines of a rule file is irrelevant to the
    verdicts.  For two sources that are both read or both not, with the same
    lines in a different order, [load] returns the same flag from any chain
    and afterwards [excluded] and [included] answer alike for every pair and
    flag. *)
Theorem load_order_irrelevant {C : Collaborators}
    (isAccess isAccess' : InputStreamAccess) (c : FilterChain.t) :
  fst (readLines isAccess) = fst (readLines isAccess') ->
  Permutation (snd (readLines isAccess)) (snd (readLines isAccess')) ->
  returned (FilterChain.load isAccess c) = returned (FilterChain.load isAccess' c)
  /\ forall p onlyInheritable,
       fst (FilterChain.excluded (state_after (FilterChain.load isAccess c)) p
              onlyInheritable)
       = fst (FilterChain.excluded (state_after (FilterChain.load isAccess' c)) p
                onlyInheritable)
       /\ fst (FilterChain.included (state_after (FilterChain.load isAccess c)) p
                 onlyInheritable)
          = fst (FilterChain.included (state_after (FilterChain.load isAccess' c)) p
                   onlyInheritable).
Proof.
  intros Hread Hperm.
  pose proof (load_outcome isAccess c) as H. cbv zeta in H.
  pose proof (load_outcome isAccess' c) as H'. cbv zeta in H'.
  assert (Hacc : forallb accepted (parsed_lines (snd (readLines isAccess)))
                 = forallb accepted (parsed_lines (snd (readLines isAccess')))).
  { assert (Himp : forall l l', Permutation l l' ->
                     forallb accepted (parsed_lines l) = true ->
                     forallb accepted (parsed_lines l') = true).
    { intros l l' HP. rewrite !all_accepted. intros Hall line Hin.
      apply Hall. eapply Permutation_in; [apply Permutation_sym|]; eassumption. }
    destruct (forallb accepted (parsed_lines (snd (readLines isAccess)))) eqn:E1,
             (forallb accepted (parsed_lines (snd (readLines isAccess')))) eqn:E2;
      try reflexivity.
    - apply (Himp _ _ Hperm) in E1. congruence.
    - apply (Himp _ _ (Permutation_sym Hperm)) in E2. congruence. }
  rewrite <- Hread, <- Hacc in H'.
  destruct (fst (readLines isAccess)
            && forallb accepted (parsed_lines (snd (readLines isAccess)))).
  - destruct H as [Hr [Hs _]], H' as [Hr' [Hs' _]].
    rewrite Hr, Hr', Hs, Hs'. split; [reflexivity|].
    intros p oi. apply chain_of_verdicts, rules_of_permutation, Hperm.
  - destruct H as [Hr Hs], H' as [Hr' Hs'].
    rewrite Hr, Hr', Hs, Hs'. split; [reflexivity|]. intros p oi. split; reflexivity.
Qed.

Lemma load_order_irrelevant_witness :
  Permutation (snd (readLines (Collaborators := Model) rule_file))
    (snd (readLines (Collaborators := Model) rule_file_reordered))
  /\ returned (FilterChain.load (C := Model) rule_file sample_chain)
     = returned (FilterChain.load (C := Model) rule_file_reordered sample_chain)
  /\ fst (FilterChain.excluded
            (state_after (FilterChain.load (C := Model) rule_file sample_chain))
            ("a.tmp", "build/a.tmp") false)
     = fst (FilterChain.excluded
              (state_after (FilterChain.load (C := Model) rule_file_reordered
                              sample_chain))
              ("a.tmp", "build/a.tmp") false).
Proof.
  assert (HP : Permutation (snd (readLines (Collaborators := Model) rule_file))
                 (snd (readLines (Collaborators := Model) rule_file_reordered))).
  { apply perm_swap. }
  destruct (load_order_irrelevant (C := Model) rule_file rule_file_reordered
              sample_chain eq_refl HP) as [H1 H2].
  split; [exact HP|]. split; [exact H1|].
  apply (H2 ("a.tmp", "build/a.tmp") false).
Defined.
